(** * update-extensions.py: the GNOME Shell extension index updater

    A shallow embedding of
    [pkgs/desktops/gnome/extensions/update-extensions.py] and the
    properties of its components: the version selector, the content
    resolver, the paginated fetcher, the collision registry and the
    serializer.

    Conventions of the embedding.
    - A Python [str] is a [string]; a character above 127 stands for a
      non-ASCII code point.
    - A Python [int] is a [Z].
    - A [dict] whose iteration order reaches the output is an insertion
      ordered association list ([odict]); a [dict] that is only looked up
      or whose order does not matter is a [gmap]; a [set] is a [gset].
    - The outside world (the HTTP server, the [nix-prefetch-url] tool, the
      Nix store) is an [Env] of functions that give the answer of each
      call; the run itself is a state and exception monad over the event
      trace and the global [package_name_registry]. *)

From Stdlib Require Import ZArith String Ascii.
From stdpp Require Import gmap strings list pretty sorting.

Open Scope string_scope.
Open Scope list_scope.
Open Scope Z_scope.

(** ** Python primitives *)

Module Py.

(** [str(n)] for an [int]. *)
Definition str_of_int (n : Z) : string := pretty n.

(** [s.startswith(p)]. *)
Definition startswith (s p : string) : bool := String.prefix p s.

(** [s.replace(old, new)]: the occurrences of [old] are replaced from
    left to right without overlap.  [old] is not empty at any call site
    of the program. *)
Fixpoint replace_from (skip : nat) (old new s : string) : string :=
  match s with
  | EmptyString => EmptyString
  | String c s' =>
      match skip with
      | S k => replace_from k old new s'
      | O =>
          if String.prefix old s
          then new +:+ replace_from (String.length old - 1) old new s'
          else String c (replace_from 0 old new s')
      end
  end.

Definition replace (s old new : string) : string := replace_from 0 old new s.

(** [s.split(sep)] for a one character separator. *)
Fixpoint split (sep : ascii) (s : string) : list string :=
  match s with
  | EmptyString => [EmptyString]
  | String c s' =>
      if Ascii.eqb c sep then EmptyString :: split sep s'
      else match split sep s' with
           | [] => [String c EmptyString]
           | w :: ws => String c w :: ws
           end
  end.

(** The ASCII characters [str.strip()] removes: space, tab, line feed,
    vertical tab, form feed, carriage return and the separators
    0x1c-0x1f. *)
Definition is_space (c : ascii) : bool :=
  let n := nat_of_ascii c in
  ((n =? 32) || ((9 <=? n) && (n <=? 13)) || ((28 <=? n) && (n <=? 31)))%nat.

Fixpoint lstrip (s : string) : string :=
  match s with
  | EmptyString => EmptyString
  | String c s' => if is_space c then lstrip s' else s
  end.

Fixpoint rstrip (s : string) : string :=
  match s with
  | EmptyString => EmptyString
  | String c s' =>
      match rstrip s' with
      | EmptyString => if is_space c then EmptyString else String c EmptyString
      | r => String c r
      end
  end.

Definition strip (s : string) : string := rstrip (lstrip s).

(** [s.splitlines()]: lines end at line feed, carriage return (a
    carriage return followed by a line feed is one boundary), vertical
    tab, form feed and the separators 0x1c-0x1e; the boundaries are
    dropped and a final boundary opens no empty line.  The boundaries
    that are not ASCII (next line, line and paragraph separator) have no
    character of their own in a [string]. *)
Definition is_linebreak (c : ascii) : bool :=
  let n := nat_of_ascii c in
  (((10 <=? n) && (n <=? 13)) || ((28 <=? n) && (n <=? 30)))%nat.

Fixpoint splitlines_from (cur : string) (started : bool) (s : string) : list string :=
  match s with
  | EmptyString => if started then [cur] else []
  | String c s' =>
      if is_linebreak c then
        match s' with
        | String c' s'' =>
            if (Ascii.eqb c "013" && Ascii.eqb c' "010")%bool
            then cur :: splitlines_from EmptyString false s''
            else cur :: splitlines_from EmptyString false s'
        | EmptyString => [cur]
        end
      else splitlines_from (cur +:+ String c EmptyString) true s'
  end.

Definition splitlines (s : string) : list string :=
  splitlines_from EmptyString false s.

(** [max(xs, default=None)]. *)
Definition max_default (xs : list Z) : option Z :=
  match xs with
  | [] => None
  | x :: xs' => Some (foldl Z.max x xs')
  end.

(** Truth value of an [Optional[int]]: [None] and [0] are false. *)
Definition truthy (o : option Z) : bool :=
  match o with
  | None => false
  | Some n => negb (n =? 0)
  end.

(** [sorted(xs, key=key)], a stable sort: elements with equal keys keep
    their order. *)
Section Sorted.
Context {A : Type} (key : A → Z).

Fixpoint insert_by (x : A) (l : list A) : list A :=
  match l with
  | [] => [x]
  | y :: l' => if key y <=? key x then y :: insert_by x l' else x :: l
  end.

Definition sorted_by (l : list A) : list A :=
  foldl (λ acc x, insert_by x acc) [] l.

(** [sorted(xs, key=key, reverse=True)]: descending, and still stable. *)
Fixpoint insert_by_desc (x : A) (l : list A) : list A :=
  match l with
  | [] => [x]
  | y :: l' => if key x <=? key y then y :: insert_by_desc x l' else x :: l
  end.

Definition sorted_by_desc (l : list A) : list A :=
  foldl (λ acc x, insert_by_desc x acc) [] l.
End Sorted.

(** An insertion ordered [dict]. *)
Definition odict (K V : Type) : Type := list (K * V).

Section Odict.
Context {K V : Type} `{EqDecision K}.

Fixpoint dict_get (k : K) (d : odict K V) : option V :=
  match d with
  | [] => None
  | (k', v) :: d' => if decide (k' = k) then Some v else dict_get k d'
  end.

(** [d[k] = v]: an existing key keeps its position. *)
Fixpoint dict_set (k : K) (v : V) (d : odict K V) : odict K V :=
  match d with
  | [] => [(k, v)]
  | (k', v') :: d' =>
      if decide (k' = k) then (k, v) :: d' else (k', v') :: dict_set k v d'
  end.

Definition dict_keys (d : odict K V) : list K := d.*1.
Definition dict_values (d : odict K V) : list V := d.*2.
End Odict.

End Py.

(** ** Data model *)

Abbreviation PackageName := string.
Abbreviation ShellVersion := string.
Abbreviation Uuid := string.
Abbreviation ExtensionVersion := Z.

(** The GNOME "major" versions the index is grouped by, each with the
    prefix its fine-grained shell versions start with. *)
Definition supported_versions : Py.odict ShellVersion string :=
  [ ("38", "3.38"); ("40", "40"); ("41", "41"); ("42", "42"); ("43", "43");
    ("44", "44"); ("45", "45"); ("46", "46"); ("47", "47") ].

(** One entry of a scraped ["shell_version_map"]: [{ "version": int, … }]. *)
Record RawRelease := { release_version : Z }.

(** One extension as the site's query API returns it (the keys the program
    reads). *)
Record RawExtension := {
  raw_pk : Z;
  raw_uuid : Uuid;
  raw_name : string;
  raw_description : string;
  raw_link : string;
  raw_shell_version_map : gmap ShellVersion RawRelease;
}.

(** [{ "version": str, "sha256": str, "metadata": str }]. *)
Record VersionInfo := {
  version : string;
  sha256 : string;
  metadata : string;
}.

(** One extension as it is stored in extensions.json. *)
Record ProcessedExtension := {
  uuid : Uuid;
  name : string;
  pname : PackageName;
  description : string;
  link : string;
  shell_version_map : Py.odict ShellVersion VersionInfo;
}.

(** What [subprocess.run(..., capture_output=True, text=True)] returns. *)
Record CompletedProcess := {
  returncode : Z;
  stdout : string;
  stderr : string;
}.

(** What [urllib.request.urlopen] does: a response, of which the program
    reads the decoded ["extensions"] array, or an [HTTPError].  The
    replies of the model are these two: a call that fails in another way
    and a body that is not a JSON object with an array of complete
    records have no reply here. *)
Inductive HttpReply :=
| HttpOk (extensions : list RawExtension)
| HttpFail (code : Z).

(** ** The run: events, environment, state and exceptions *)

Inductive Level := DEBUG | INFO | WARNING.

(** What the run does to the outside world, and a marker for each entry
    into [fetch_extension_data]. *)
Inductive Event :=
| EvUrlopen (url : string)
| EvPrefetch (url : string)
| EvRead (path : string)
| EvFetchCall (uuid version : string)
| EvLog (lvl : Level) (msg : string).

(** The outside world: what the n-th call of [urlopen], the n-th run of
    [nix-prefetch-url] and the n-th read of a file answer, given the
    argument of the call.  Calls are counted from 0 over the whole run. *)
Record Env := {
  urlopen : nat → string → HttpReply;
  nix_prefetch_url : nat → string → CompletedProcess;
  read_text : nat → string → option string;
}.

(** The arguments of the calls recorded in a trace, most recent first. *)
Definition urlopen_calls (t : list Event) : list string :=
  omap (λ e, match e with EvUrlopen url => Some url | _ => None end) t.

Definition prefetch_calls (t : list Event) : list string :=
  omap (λ e, match e with EvPrefetch url => Some url | _ => None end) t.

Definition read_calls (t : list Event) : list string :=
  omap (λ e, match e with EvRead path => Some path | _ => None end) t.

Definition fetch_calls (t : list Event) : list (string * string) :=
  omap (λ e, match e with EvFetchCall uuid version => Some (uuid, version) | _ => None end) t.

Inductive Exn :=
| HTTPError (code : Z)
| Exception (msg : string)
| IndexError
| KeyError (key : string)
| UnboundLocalError
| UnicodeEncodeError
| OSError (path : string)
| RuntimeError (msg : string)
| JSONDecodeError.

Inductive Result (A : Type) :=
| Return (a : A)
| Raise (e : Exn).
Arguments Return {A} a.
Arguments Raise {A} e.

(** The mutable state of the process: the trace of events so far (most
    recent first) and the global [package_name_registry]. *)
Record World := {
  trace : list Event;
  package_name_registry : gmap ShellVersion (gmap PackageName (list Uuid));
}.

Definition M (A : Type) : Type := World → Result A * World.

Definition ret {A} (a : A) : M A := λ w, (Return a, w).

Definition raise {A} (e : Exn) : M A := λ w, (Raise e, w).

Definition bind {A B} (m : M A) (k : A → M B) : M B :=
  λ w, match m w with
       | (Return a, w') => k a w'
       | (Raise e, w') => (Raise e, w')
       end.

Declare Scope run_scope.
Delimit Scope run_scope with run.
Notation "x <- m ;; k" := (bind m (λ x, k))
  (at level 100, m at next level, right associativity) : run_scope.
Notation "m ;; k" := (bind m (λ _, k))
  (at level 100, right associativity) : run_scope.
Open Scope run_scope.

(** [try: m except e: handler e]; a handler that answers [None] does not
    catch the exception. *)
Definition try_except {A} (m : M A) (handler : Exn → option (M A)) : M A :=
  λ w, match m w with
       | (Return a, w') => (Return a, w')
       | (Raise e, w') =>
           match handler e with
           | Some h => h w'
           | None => (Raise e, w')
           end
       end.

Definition emit (e : Event) : M unit :=
  λ w, (Return tt, {| trace := e :: trace w;
                      package_name_registry := package_name_registry w |}).

Definition logging (lvl : Level) (msg : string) : M unit := emit (EvLog lvl msg).

Definition get_registry : M (gmap ShellVersion (gmap PackageName (list Uuid))) :=
  λ w, (Return (package_name_registry w), w).

Definition set_registry (r : gmap ShellVersion (gmap PackageName (list Uuid))) : M unit :=
  λ w, (Return tt, {| trace := trace w; package_name_registry := r |}).

(** A [for] loop that threads the variables [b] it assigns. *)
Fixpoint for_each {A B} (l : list A) (b : B) (body : B → A → M B) : M B :=
  match l with
  | [] => ret b
  | a :: l' => b' <- body b a;; for_each l' b' body
  end.

(** [l[i]]. *)
Definition index {A} (l : list A) (i : nat) : M A :=
  match l !! i with
  | Some a => ret a
  | None => raise IndexError
  end.

(** The registry as the module leaves it at import: an empty dictionary for
    every supported shell version. *)
Definition initial_registry : gmap ShellVersion (gmap PackageName (list Uuid)) :=
  foldl (λ reg shell_version, <[shell_version := ∅]> reg) ∅
        (Py.dict_keys supported_versions).

Definition initial_world : World :=
  {| trace := []; package_name_registry := initial_registry |}.

Section Program.

Context (env : Env).

(** ** Content resolver *)

Definition subprocess_run_nix_prefetch_url (url : string) : M CompletedProcess :=
  λ w, bind (emit (EvPrefetch url))
            (λ _, ret (nix_prefetch_url env (length (prefetch_calls (trace w))) url)) w.

(** [open(path, "r").read()]: the text of the file, or an [OSError].  A
    file that is not text in the encoding of the locale has no answer
    here. *)
Definition open_read (path : string) : M string :=
  λ w, bind (emit (EvRead path))
            (λ _, match read_text env (length (read_calls (trace w))) path with
                  | Some text => ret text
                  | None => raise (OSError path)
                  end) w.

(** [text.encode("ascii")]. *)
Definition encode_ascii (text : string) : M (list ascii) :=
  let chars := list_ascii_of_string text in
  if forallb (λ c, (nat_of_ascii c <? 128)%nat) chars then ret chars
  else raise UnicodeEncodeError.

Definition b64_alphabet : string :=
  "ABCDEFGHIJKLMNOPQRSTUVWXYZabcdefghijklmnopqrstuvwxyz0123456789+/".

Definition b64_char (n : N) : ascii :=
  default "="%char (String.get (N.to_nat n) b64_alphabet).

(** [base64.b64encode(bs).decode()]. *)
Fixpoint b64encode (bs : list ascii) : string :=
  match bs with
  | [] => ""
  | [a] =>
      let n := N_of_ascii a in
      String (b64_char (n / 4)) (String (b64_char (n mod 4 * 16)) "==")
  | [a; b] =>
      let n := (N_of_ascii a * 256 + N_of_ascii b)%N in
      String (b64_char (n / 1024))
        (String (b64_char (n / 16 mod 64))
           (String (b64_char (n mod 16 * 4)) "="))
  | a :: b :: c :: rest =>
      let n := (N_of_ascii a * 65536 + N_of_ascii b * 256 + N_of_ascii c)%N in
      String (b64_char (n / 262144))
        (String (b64_char (n / 4096 mod 64))
           (String (b64_char (n / 64 mod 64))
              (String (b64_char (n mod 64)) (b64encode rest))))
  end%N.

(** The [for _ in range(0, 10)] loop; [process] is the variable the loop
    assigns, unbound before the first iteration. *)
Fixpoint prefetch_loop (iterations : list nat) (url : string)
    (process : option CompletedProcess) : M (option CompletedProcess) :=
  match iterations with
  | [] => ret process
  | _ :: iterations' =>
      process <- subprocess_run_nix_prefetch_url url;;
      if returncode process =? 0 then ret (Some process)
      else
        logging WARNING ("Nix-prefetch-url failed for " +:+ url +:+ ":");;
        logging WARNING ("Stderr: " +:+ stderr process);;
        logging WARNING "Retrying";;
        prefetch_loop iterations' url (Some process)
  end.

Definition fetch_extension_data (uuid version : string) : M (string * string) :=
  emit (EvFetchCall uuid version);;
  let uuid := Py.replace uuid "@" "" in
  let url := "https://extensions.gnome.org/extension-data/" +:+ uuid +:+ ".v"
             +:+ version +:+ ".shell-extension.zip" in
  process <- prefetch_loop (seq 0 10) url None;;
  match process with
  | None => raise UnboundLocalError
  | Some process =>
      if negb (returncode process =? 0) then
        raise (Exception "Retried 10 times, but still failed to download the extension. Exiting.")
      else
        let lines := Py.splitlines (stdout process) in
        line0 <- index lines 0;;
        let hash := Py.strip line0 in
        line1 <- index lines 1;;
        let path := Py.strip line1 in
        text <- open_read (path +:+ "/metadata.json");;
        bytes <- encode_ascii text;;
        ret (hash, b64encode bytes)
  end.

(** ** Version selector *)

(** [max((int(ext_ver) for shell_ver, ext_ver in m.items()
          if shell_ver.startswith(version_prefix)), default=None)]. *)
Definition newest_compatible (extension_version_map : gmap ShellVersion ExtensionVersion)
    (version_prefix : string) : option ExtensionVersion :=
  Py.max_default
    ((filter (λ item, Is_true (Py.startswith item.1 version_prefix))
             (map_to_list extension_version_map)).*2).

(** The first loop of [generate_extension_versions]. *)
Definition select_versions (extension_version_map : gmap ShellVersion ExtensionVersion)
    : Py.odict ShellVersion ExtensionVersion :=
  foldl (λ extension_versions item,
           let extension_version := newest_compatible extension_version_map item.2 in
           if negb (Py.truthy extension_version) then extension_versions
           else match extension_version with
                | Some v => Py.dict_set item.1 v extension_versions
                | None => extension_versions
                end)
        [] supported_versions.

Definition generate_extension_versions
    (extension_version_map : gmap ShellVersion ExtensionVersion) (uuid : Uuid)
    : M (Py.odict ShellVersion VersionInfo) :=
  let extension_versions := select_versions extension_version_map in
  extension_info_cache <-
    for_each
      (Py.sorted_by id (elements (list_to_set (Py.dict_values extension_versions) : gset Z)))
      (∅ : gmap ExtensionVersion (string * string))
      (λ cache extension_version,
         logging DEBUG ("[" +:+ uuid +:+ "] Downloading v" +:+ Py.str_of_int extension_version);;
         info <- fetch_extension_data uuid (Py.str_of_int extension_version);;
         ret (<[extension_version := info]> cache));;
  for_each extension_versions []
    (λ extension_versions_full item,
       match extension_info_cache !! item.2 with
       | None => raise (KeyError (Py.str_of_int item.2))
       | Some info =>
           ret (Py.dict_set item.1
                  {| version := Py.str_of_int item.2;
                     sha256 := info.1;
                     metadata := info.2 |}
                  extension_versions_full)
       end).

(** ** Extension transformer *)

Definition pname_from_url (url : string) : M (string * string) :=
  let url := Py.split "/" url in
  a <- index url 3;;
  b <- index url 2;;
  ret (a, b).

(** One iteration of the loop that records the package name. *)
Definition register_pname (pname : PackageName) (uuid : Uuid)
    (shell_version : ShellVersion) : M unit :=
  registry <- get_registry;;
  match registry !! shell_version with
  | None => raise (KeyError shell_version)
  | Some names =>
      match names !! pname with
      | Some uuids =>
          logging WARNING ("Package name '" +:+ pname +:+ "' for GNOME '"
                           +:+ shell_version +:+ "' is colliding.");;
          set_registry (<[shell_version := <[pname := (uuids ++ [uuid])%list]> names]> registry)
      | None =>
          set_registry (<[shell_version := <[pname := [uuid]]> names]> registry)
      end
  end.

Definition process_extension (extension : RawExtension) : M (option ProcessedExtension) :=
  let uuid := raw_uuid extension in
  if decide (raw_shell_version_map extension = ∅) then ret None
  else
    logging INFO ("Processing '" +:+ uuid +:+ "'");;
    let shell_version_map := release_version <$> raw_shell_version_map extension in
    shell_version_map <- generate_extension_versions shell_version_map uuid;;
    match shell_version_map with
    | [] => ret None
    | _ =>
        names <- pname_from_url (raw_link extension);;
        let pname := names.1 in
        for_each (Py.dict_keys shell_version_map) tt
          (λ _ shell_version, register_pname pname uuid shell_version);;
        ret (Some {| uuid := uuid;
                     name := raw_name extension;
                     pname := pname;
                     description := raw_description extension;
                     link := "https://extensions.gnome.org" +:+ raw_link extension;
                     shell_version_map := shell_version_map |})
    end.

End Program.

(** ** Paginated fetcher *)

Section Fetcher.

Context (env : Env).

Definition urllib_request_urlopen (url : string) : M HttpReply :=
  λ w, bind (emit (EvUrlopen url))
            (λ _, ret (urlopen env (length (urlopen_calls (trace w))) url)) w.

(** The [for attempt in range(retries + 1)] loop of the context manager
    [request].  Yielding the response hands it to the body of the caller's
    [with] statement, after which the loop is left; a generator that ends
    without yielding makes [contextmanager] raise a [RuntimeError].  The
    warning gives the code of the error, without its reason phrase. *)
Fixpoint request_loop (attempts : list nat) (url : string) (retries : nat)
    (retry_codes : list Z) : M (list RawExtension) :=
  match attempts with
  | [] => raise (RuntimeError "generator didn't yield")
  | attempt :: attempts' =>
      reply <- urllib_request_urlopen url;;
      match reply with
      | HttpOk response => ret response
      | HttpFail code =>
          if bool_decide (code ∈ retry_codes) && bool_decide (attempt < retries)%nat
          then
            logging WARNING ("Error while fetching " +:+ url +:+ ". Retrying: HTTP Error "
                             +:+ Py.str_of_int code);;
            request_loop attempts' url retries retry_codes
          else raise (HTTPError code)
      end
  end.

Definition request (url : string) (retries : nat) (retry_codes : list Z)
    : M (list RawExtension) :=
  request_loop (seq 0 (retries + 1)) url retries retry_codes.

Definition default_retries : nat := 5.
Definition default_retry_codes : list Z := [500; 502; 503; 504].

Definition page_url (page : Z) : string :=
  "https://extensions.gnome.org/extension-query/?n_per_page=25&page="
  +:+ Py.str_of_int page.

(** The [while True] loop of [scrape_extensions_index], run for at most
    [fuel] iterations; [None] says that the loop has not left by then.
    An iteration answers the extensions so far and whether it broke out
    of the loop. *)
Fixpoint scrape_loop (fuel : nat) (page : Z) (extensions : list RawExtension)
    : M (option (list RawExtension)) :=
  match fuel with
  | O => ret None
  | S fuel' =>
      let page := page + 1 in
      logging INFO ("Scraping page " +:+ Py.str_of_int page);;
      step <- try_except
        (data <- request (page_url page) default_retries default_retry_codes;;
         let response_length := length data in
         let extensions := (extensions ++ data)%list in
         if (response_length <? 25)%nat then
           logging DEBUG ("	This page only has " +:+ Py.str_of_int (Z.of_nat response_length)
                          +:+ " entries, so it must be the last one.");;
           ret (extensions, true)
         else ret (extensions, false))
        (λ e, match e with
              | HTTPError code =>
                  Some (if code =? 404 then ret (extensions, true) else raise e)
              | _ => None
              end);;
      if step.2 then ret (Some step.1) else scrape_loop fuel' page step.1
  end.

Definition scrape_extensions_index (fuel : nat) : M (option (list RawExtension)) :=
  extensions <- scrape_loop fuel 0 [];;
  ret (Py.sorted_by raw_pk <$> extensions).

End Fetcher.

(** ** JSON, as the [json] module of the Python library writes and reads it *)

Module Json.

#[warnings="-register-all"]
Inductive json :=
| JNull
| JBool (b : bool)
| JInt (n : Z)
| JFloat (lexeme : string)
| JStr (s : string)
| JArr (items : list json)
| JObj (members : list (string * json)).

Definition dq : string := String "034"%char EmptyString.
Definition nl : string := String "010"%char EmptyString.
Definition backslash : string := String "092"%char EmptyString.

Definition hex_digit (n : nat) : ascii :=
  default "0"%char (String.get n "0123456789abcdef").

(** The escapes of [json.dumps(..., ensure_ascii=False)]. *)
Definition escape_char (c : ascii) : string :=
  let n := nat_of_ascii c in
  if (n =? 34)%nat then backslash +:+ dq
  else if (n =? 92)%nat then backslash +:+ backslash
  else if (n =? 10)%nat then backslash +:+ "n"
  else if (n =? 13)%nat then backslash +:+ "r"
  else if (n =? 9)%nat then backslash +:+ "t"
  else if (n =? 8)%nat then backslash +:+ "b"
  else if (n =? 12)%nat then backslash +:+ "f"
  else if (n <? 32)%nat then
    backslash +:+ "u00" +:+ String (hex_digit (n / 16)) (String (hex_digit (n mod 16)) EmptyString)
  else String c EmptyString.

Fixpoint escape (s : string) : string :=
  match s with
  | EmptyString => EmptyString
  | String c s' => escape_char c +:+ escape s'
  end.

Definition dumps_str (s : string) : string := dq +:+ escape s +:+ dq.

Fixpoint join (sep : string) (l : list string) : string :=
  match l with
  | [] => EmptyString
  | [x] => x
  | x :: l' => x +:+ sep +:+ join sep l'
  end.

(** [json.dumps(v, ensure_ascii=False)]: one line, items separated by
    a comma and a space, keys from values by a colon and a space. *)
Fixpoint dumps (v : json) : string :=
  match v with
  | JNull => "null"
  | JBool true => "true"
  | JBool false => "false"
  | JInt n => Py.str_of_int n
  | JFloat lexeme => lexeme
  | JStr s => dumps_str s
  | JArr items => "[" +:+ join ", " (map dumps items) +:+ "]"
  | JObj members =>
      "{" +:+ join ", " (map (λ kv, dumps_str kv.1 +:+ ": " +:+ dumps kv.2) members) +:+ "}"
  end.

(** *** Reading *)

Definition is_ws (c : ascii) : bool :=
  let n := nat_of_ascii c in
  ((n =? 32) || (n =? 9) || (n =? 10) || (n =? 13))%nat.

Fixpoint skip_ws (s : string) : string :=
  match s with
  | String c s' => if is_ws c then skip_ws s' else s
  | EmptyString => EmptyString
  end.

Definition hex_value (c : ascii) : option nat :=
  let n := nat_of_ascii c in
  if ((48 <=? n) && (n <=? 57))%nat then Some (n - 48)%nat
  else if ((97 <=? n) && (n <=? 102))%nat then Some (n - 87)%nat
  else if ((65 <=? n) && (n <=? 70))%nat then Some (n - 55)%nat
  else None.

(** The character of a [\uXXXX] escape; a code point above 255 has no
    character in this model of [str] and [dumps] writes none. *)
Definition unicode_escape (h1 h2 h3 h4 : ascii) : option ascii :=
  a ← hex_value h1; b ← hex_value h2; c ← hex_value h3; d ← hex_value h4;
  if ((a =? 0) && (b =? 0))%nat then Some (ascii_of_nat (c * 16 + d)) else None.

Definition simple_escape (c : ascii) : option ascii :=
  let n := nat_of_ascii c in
  if ((n =? 34) || (n =? 92) || (n =? 47))%nat then Some c
  else if (n =? 98)%nat then Some "008"%char
  else if (n =? 102)%nat then Some "012"%char
  else if (n =? 110)%nat then Some "010"%char
  else if (n =? 114)%nat then Some "013"%char
  else if (n =? 116)%nat then Some "009"%char
  else None.

(** The body of a string, from after its opening quote: the decoded
    string and the text after the closing quote.  As [json.loads] is
    strict, a raw control character inside a string is an error. *)
Fixpoint scan_string (s : string) : option (string * string) :=
  match s with
  | EmptyString => None
  | String c s' =>
      let n := nat_of_ascii c in
      if (n =? 34)%nat then Some (EmptyString, s')
      else if (n =? 92)%nat then
        match s' with
        | EmptyString => None
        | String e s'' =>
            if (nat_of_ascii e =? 117)%nat then
              match s'' with
              | String h1 (String h2 (String h3 (String h4 r))) =>
                  d ← unicode_escape h1 h2 h3 h4;
                  p ← scan_string r;
                  Some (String d p.1, p.2)
              | _ => None
              end
            else
              d ← simple_escape e;
              p ← scan_string s'';
              Some (String d p.1, p.2)
        end
      else if (n <? 32)%nat then None
      else p ← scan_string s'; Some (String c p.1, p.2)
  end.

Definition is_digit (c : ascii) : bool :=
  let n := nat_of_ascii c in ((48 <=? n) && (n <=? 57))%nat.

(** The longest run of digits that [s] starts with, and the rest. *)
Fixpoint span_digits (s : string) : string * string :=
  match s with
  | String c s' =>
      if is_digit c then let p := span_digits s' in (String c p.1, p.2)
      else (EmptyString, s)
  | EmptyString => (EmptyString, EmptyString)
  end.

Definition digits_value (ds : string) : Z :=
  foldl (λ acc c, acc * 10 + Z.of_nat (nat_of_ascii c - 48)) 0 (list_ascii_of_string ds).

(** A number: an optional minus sign, an integer part without leading
    zero, an optional fraction and an optional exponent.  Without
    fraction and exponent it is an [int], else a [float], which is kept
    as its text. *)
Definition scan_number (s : string) : option (json * string) :=
  let '(sign, s1) := match s with
                     | String "-" r => ("-", r)
                     | _ => (EmptyString, s)
                     end in
  let '(int_part, s2) := match s1 with
                         | String "0" r => ("0", r)
                         | _ => span_digits s1
                         end in
  if decide (int_part = EmptyString) then None
  else
    let '(frac, s3) := match s2 with
                       | String "." r =>
                           let p := span_digits r in
                           if decide (p.1 = EmptyString) then (EmptyString, s2)
                           else ("." +:+ p.1, p.2)
                       | _ => (EmptyString, s2)
                       end in
    let exponent (mark : string) (r : string) :=
      let '(esign, r1) := match r with
                          | String "-" r' => ("-", r')
                          | String "+" r' => ("+", r')
                          | _ => (EmptyString, r)
                          end in
      let p := span_digits r1 in
      if decide (p.1 = EmptyString) then (EmptyString, s3)
      else (mark +:+ esign +:+ p.1, p.2) in
    let '(exp, s4) := match s3 with
                      | String "e" r => exponent "e" r
                      | String "E" r => exponent "E" r
                      | _ => (EmptyString, s3)
                      end in
    if decide (frac = EmptyString ∧ exp = EmptyString)
    then Some (JInt (if decide (sign = EmptyString) then digits_value int_part
                     else - digits_value int_part), s4)
    else Some (JFloat (sign +:+ int_part +:+ frac +:+ exp), s4).

Definition scan_literal (s : string) : option (json * string) :=
  if String.prefix "null" s then Some (JNull, String.substring 4 (String.length s - 4) s)
  else if String.prefix "true" s then Some (JBool true, String.substring 4 (String.length s - 4) s)
  else if String.prefix "false" s then Some (JBool false, String.substring 5 (String.length s - 5) s)
  else scan_number s.

(** A value at the start of [s], and the text after it.  [fuel] bounds
    the nesting and the number of items; the length of the text is
    enough. *)
Fixpoint parse_value (fuel : nat) (s : string) : option (json * string) :=
  match fuel with
  | O => None
  | S fuel' =>
      match s with
      | EmptyString => None
      | String c s' =>
          let n := nat_of_ascii c in
          if (n =? 34)%nat then
            p ← scan_string s'; Some (JStr p.1, p.2)
          else if (n =? 123)%nat then
            match skip_ws s' with
            | String "}" r => Some (JObj [], r)
            | r => p ← parse_members fuel' r []; Some (JObj p.1, p.2)
            end
          else if (n =? 91)%nat then
            match skip_ws s' with
            | String "]" r => Some (JArr [], r)
            | r => p ← parse_items fuel' r; Some (JArr p.1, p.2)
            end
          else scan_literal s
      end
  end
with parse_members (fuel : nat) (s : string) (members : list (string * json))
    : option (list (string * json) * string) :=
  match fuel with
  | O => None
  | S fuel' =>
      match s with
      | String c s' =>
          if (nat_of_ascii c =? 34)%nat then
            k ← scan_string s';
            match skip_ws k.2 with
            | String ":" r =>
                v ← parse_value fuel' (skip_ws r);
                let members := Py.dict_set k.1 v.1 members in
                match skip_ws v.2 with
                | String "," r' => parse_members fuel' (skip_ws r') members
                | String "}" r' => Some (members, r')
                | _ => None
                end
            | _ => None
            end
          else None
      | EmptyString => None
      end
  end
with parse_items (fuel : nat) (s : string) : option (list json * string) :=
  match fuel with
  | O => None
  | S fuel' =>
      v ← parse_value fuel' s;
      match skip_ws v.2 with
      | String "," r =>
          p ← parse_items fuel' (skip_ws r); Some (v.1 :: p.1, p.2)
      | String "]" r => Some ([v.1], r)
      | _ => None
      end
  end.

(** [json.loads(s)]; [None] is a [JSONDecodeError]. *)
Definition loads (s : string) : option json :=
  p ← parse_value (S (String.length s)) (skip_ws s);
  if decide (skip_ws p.2 = EmptyString) then Some p.1 else None.

End Json.


(** ** Serializer *)

Import Json.

Definition version_info_to_json (v : VersionInfo) : json :=
  JObj [ ("version", JStr (version v));
         ("sha256", JStr (sha256 v));
         ("metadata", JStr (metadata v)) ].

(** The dictionary [process_extension] returns, as a JSON value. *)
Definition extension_to_json (e : ProcessedExtension) : json :=
  JObj [ ("uuid", JStr (uuid e));
         ("name", JStr (name e));
         ("pname", JStr (pname e));
         ("description", JStr (description e));
         ("link", JStr (link e));
         ("shell_version_map",
           JObj (map (λ kv, (kv.1, version_info_to_json kv.2)) (shell_version_map e))) ].

(** The two replacements that put the entry of [version] on a line of its
    own. *)
Definition break_before_version (extension : string) (version : ShellVersion) : string :=
  let extension :=
    Py.replace extension ("{" +:+ dq +:+ version +:+ dq +:+ ": {")
                         ("{" +:+ nl +:+ "    " +:+ dq +:+ version +:+ dq +:+ ": {") in
  Py.replace extension (", " +:+ dq +:+ version +:+ dq +:+ ": {")
                       ("," +:+ nl +:+ "    " +:+ dq +:+ version +:+ dq +:+ ": {").

(** The text written for one extension, without the delimiter before it
    and the line break after it. *)
Definition format_extension (e : ProcessedExtension) : string :=
  let extension := dumps (extension_to_json e) in
  let extension := foldl break_before_version extension (Py.dict_keys supported_versions) in
  Py.replace extension "}}}" ("}" +:+ nl +:+ "  }}").

(** The content of extensions.json: everything the block writes to [out]. *)
Definition write_extensions_json (processed_extensions : list ProcessedExtension) : string :=
  foldl (λ out item,
           out +:+ (if (item.1 =? 0)%nat then "[ " else ", ")
               +:+ format_extension item.2 +:+ nl)
        EmptyString (imap (λ index extension, (index, extension)) processed_extensions)
  +:+ "]" +:+ nl.

(** ** Collision report *)

(** [float(v)] for a decimal integer literal, on which it is exact. *)
Definition float_of_str (v : string) : option Z :=
  if decide (v = EmptyString) then None
  else if forallb is_digit (list_ascii_of_string v) then Some (digits_value v)
  else None.

Definition last_3_versions : list ShellVersion :=
  take 3 (Py.sorted_by_desc (λ v, default 0 (float_of_str v))
                            (Py.dict_keys supported_versions)).

(** The two nested loops that merge the package names into one dictionary
    of sets. *)
Definition merge_names (acc : gmap PackageName (gset Uuid))
    (item : PackageName * list Uuid) : gmap PackageName (gset Uuid) :=
  let acc := match acc !! item.1 with
             | None => <[item.1 := ∅]> acc
             | Some _ => acc
             end in
  alter (λ uuids, uuids ∪ list_to_set item.2) item.1 acc.

Definition package_name_registry_filtered
    (registry : gmap ShellVersion (gmap PackageName (list Uuid)))
    : gmap PackageName (gset Uuid) :=
  let package_name_registry_for_versions :=
    (filter (λ kv, kv.1 ∈ last_3_versions) (map_to_list registry)).*2 in
  let merged :=
    foldl (λ acc pkgs, foldl merge_names acc (map_to_list pkgs))
          ∅ package_name_registry_for_versions in
  filter (λ kv, (1 < size kv.2)%nat) merged.

(** The dictionary dumped to collisions.json.  The order of a list made
    from a set is the set's own. *)
Definition collisions (registry : gmap ShellVersion (gmap PackageName (list Uuid)))
    : gmap PackageName (list Uuid) :=
  elements <$> package_name_registry_filtered registry.

(** ** The script *)

Section Main.

Context (env : Env).

Definition process_all (raw_extensions : list RawExtension) : M (list ProcessedExtension) :=
  for_each (imap (λ num raw_extension, (num, raw_extension)) raw_extensions) []
    (λ processed_extensions item,
       processed_extension <- process_extension env item.2;;
       match processed_extension with
       | Some e =>
           logging DEBUG ("Processed " +:+ Py.str_of_int (Z.of_nat item.1 + 1) +:+ " / "
                          +:+ Py.str_of_int (Z.of_nat (length raw_extensions)));;
           ret (processed_extensions ++ [e])%list
       | None => ret processed_extensions
       end).

(** The files the script leaves: the text of extensions.json and the
    dictionary of collisions.json.  [None] says that scraping has not
    ended within [fuel] pages. *)
Definition main (fuel : nat)
    : M (option (string * gmap PackageName (list Uuid))) :=
  raw_extensions <- scrape_extensions_index env fuel;;
  match raw_extensions with
  | None => ret None
  | Some raw_extensions =>
      logging INFO ("Downloaded " +:+ Py.str_of_int (Z.of_nat (length raw_extensions))
                    +:+ " extensions. Processing …");;
      processed_extensions <- process_all raw_extensions;;
      let extensions_json := write_extensions_json processed_extensions in
      logging INFO ("Done. Writing results to extensions.json ("
                    +:+ Py.str_of_int (Z.of_nat (length processed_extensions))
                    +:+ " extensions in total)");;
      match loads extensions_json with
      | None => raise JSONDecodeError
      | Some _ =>
          registry <- get_registry;;
          let collisions := collisions registry in
          logging INFO "Done. Writing name collisions to collisions.json (please check manually)";;
          ret (Some (extensions_json, collisions))
      end
  end.

End Main.

(** * Vocabulary of the properties

    The parts of the program, the observations and the sample inputs
    that the properties below are stated with. *)

(** ** Parts of the program *)

(** What the first loop keeps of one supported version. *)
Definition selected (m : gmap ShellVersion ExtensionVersion) (item : ShellVersion * string)
    : option (ShellVersion * ExtensionVersion) :=
  match newest_compatible m item.2 with
  | Some v => if v =? 0 then None else Some (item.1, v)
  | None => None
  end.

(** The second loop of [generate_extension_versions]. *)
Definition download (uuid : Uuid) (env : Env) (cache : gmap ExtensionVersion (string * string))
    (extension_version : ExtensionVersion) : M (gmap ExtensionVersion (string * string)) :=
  logging DEBUG ("[" +:+ uuid +:+ "] Downloading v" +:+ Py.str_of_int extension_version);;
  info <- fetch_extension_data env uuid (Py.str_of_int extension_version);;
  ret (<[extension_version := info]> cache).

(** The body of the last loop of [generate_extension_versions]. *)
Definition fill (cache : gmap ExtensionVersion (string * string))
    (extension_versions_full : Py.odict ShellVersion VersionInfo)
    (item : ShellVersion * ExtensionVersion) : M (Py.odict ShellVersion VersionInfo) :=
  match cache !! item.2 with
  | None => raise (KeyError (Py.str_of_int item.2))
  | Some info =>
      ret (Py.dict_set item.1
             {| version := Py.str_of_int item.2; sha256 := info.1; metadata := info.2 |}
             extension_versions_full)
  end.

(** The URL [fetch_extension_data] downloads from. *)
Definition extension_url (uuid version : string) : string :=
  "https://extensions.gnome.org/extension-data/" +:+ Py.replace uuid "@" "" +:+ ".v"
  +:+ version +:+ ".shell-extension.zip".

(** The exception of the exhausted retries. *)
Definition retried_10_times : Exn :=
  Exception "Retried 10 times, but still failed to download the extension. Exiting.".

(** What [fetch_extension_data] does with the process the loop leaves. *)
Definition read_metadata (env : Env) (process : CompletedProcess) : M (string * string) :=
  let lines := Py.splitlines (stdout process) in
  line0 <- index lines 0;;
  let hash := Py.strip line0 in
  line1 <- index lines 1;;
  let path := Py.strip line1 in
  text <- open_read env (path +:+ "/metadata.json");;
  bytes <- encode_ascii text;;
  ret (hash, b64encode bytes).

(** ** Observations *)

(** [keeps f m]: running [m] does not change the observation [f] of the
    world, however it ends. *)
Definition keeps {X A : Type} (f : World → X) (m : M A) : Prop :=
  ∀ w, f (m w).2 = f w.

(** [text] is ASCII, so that [text.encode("ascii")] succeeds. *)
Definition is_ascii_text (text : string) : bool :=
  forallb (λ c, (nat_of_ascii c <? 128)%nat) (list_ascii_of_string text).

(** [u] is one of the identifiers the merged dictionary has for [pname]. *)
Definition holds (acc : gmap PackageName (gset Uuid)) (pname : PackageName) (u : Uuid) : Prop :=
  ∃ uuids, acc !! pname = Some uuids ∧ u ∈ uuids.

(** [u] is registered under [pname] for one of the last three versions. *)
Definition registered (registry : gmap ShellVersion (gmap PackageName (list Uuid)))
    (pname : PackageName) (u : Uuid) : Prop :=
  ∃ shell_version names uuids,
    shell_version ∈ last_3_versions
    ∧ registry !! shell_version = Some names
    ∧ names !! pname = Some uuids
    ∧ u ∈ uuids.

(** The place of a character in the Base64 alphabet. *)
Fixpoint b64_find (c : ascii) (alphabet : string) (n : N) : option N :=
  match alphabet with
  | EmptyString => None
  | String c' alphabet' => if Ascii.eqb c c' then Some n else b64_find c alphabet' (n + 1)
  end.

(** The value of a Base64 character; the padding character has none. *)
Definition b64_index (c : ascii) : option N := b64_find c b64_alphabet 0.

(** The padding character. *)
Definition is_pad (c : ascii) : bool := Ascii.eqb c "=".

(** [base64.b64decode], the inverse of [b64encode]. *)
Fixpoint b64decode (s : string) : option (list ascii) :=
  match s with
  | EmptyString => Some []
  | String c1 (String c2 (String c3 (String c4 rest))) =>
      s1 ← b64_index c1;
      s2 ← b64_index c2;
      match b64_index c3 with
      | None =>
          if is_pad c3 && is_pad c4 && bool_decide (rest = EmptyString)
          then Some [ascii_of_N ((s1 * 64 + s2) / 16)]
          else None
      | Some s3 =>
          match b64_index c4 with
          | None =>
              if is_pad c4 && bool_decide (rest = EmptyString)
              then let n := ((s1 * 64 + s2) * 64 + s3)%N in
                   Some [ascii_of_N (n / 1024); ascii_of_N (n / 4 mod 256)]
              else None
          | Some s4 =>
              let n := (((s1 * 64 + s2) * 64 + s3) * 64 + s4)%N in
              bytes ← b64decode rest;
              Some (ascii_of_N (n / 65536) :: ascii_of_N (n / 256 mod 256)
                    :: ascii_of_N (n mod 256) :: bytes)
          end
      end
  | _ => None
  end%N.

(** ** Servers *)

(** How the server answers the requests for one page: the codes of the
    failures of the first attempts, and the reply of the last attempt. *)
Definition Exchange : Type := list Z * HttpReply.

(** The server answers the requests from call [n] on, for the pages from
    [page] on, as the [schedule] says. *)
Fixpoint answers (env : Env) (n : nat) (page : Z) (schedule : list Exchange) : Prop :=
  match schedule with
  | [] => True
  | (fails, reply) :: schedule' =>
      (∀ j code, fails !! j = Some code →
         urlopen env (n + j) (page_url page) = HttpFail code)
      ∧ urlopen env (n + length fails) (page_url page) = reply
      ∧ answers env (n + length fails + 1) (page + 1) schedule'
  end.

(** The requests that a schedule is made of, first request first. *)
Fixpoint requested (page : Z) (schedule : list Exchange) : list string :=
  match schedule with
  | [] => []
  | (fails, _) :: schedule' =>
      replicate (S (length fails)) (page_url page) ++ requested (page + 1) schedule'
  end.

(** Failures that [request] retries: their codes are retried codes, and
    they are no more than the retries. *)
Definition retried (fails : list Z) : Prop :=
  Forall (λ code, code ∈ default_retry_codes) fails
  ∧ (length fails ≤ default_retries)%nat.

(** A reply that [request] hands on after these failures: a response, or
    a failure that it does not retry. *)
Definition handed_on (fails : list Z) (reply : HttpReply) : Prop :=
  match reply with
  | HttpOk _ => True
  | HttpFail code => code ∉ default_retry_codes ∨ length fails = default_retries
  end.

(** What the last reply of a scrape adds to the extensions. *)
Definition last_items (final : HttpReply) : list RawExtension :=
  match final with
  | HttpOk data => data
  | HttpFail _ => []
  end.

(** The last reply ends the scrape: a page that is not full, or a 404. *)
Definition ends_scrape (final : HttpReply) : Prop :=
  match final with
  | HttpOk data => (length data < 25)%nat
  | HttpFail code => code = 404
  end.

(** The schedule of a scrape: full pages, each after failures that are
    retried, and then the last reply. *)
Definition scrape_schedule (pages : list (list Z * list RawExtension))
    (last_fails : list Z) (final : HttpReply) : list Exchange :=
  ((λ p, (p.1, HttpOk p.2)) <$> pages) ++ [(last_fails, final)].

(** ** Sample inputs *)

(** An extension without releases. *)
Definition sample_extension (pk : Z) : RawExtension :=
  {| raw_pk := pk;
     raw_uuid := "sample@example.org";
     raw_name := "Sample";
     raw_description := "A sample";
     raw_link := "/extension/" +:+ Py.str_of_int pk +:+ "/sample/";
     raw_shell_version_map := ∅ |}.

(** A run of the tool that fails. *)
Definition no_process : CompletedProcess :=
  {| returncode := 1; stdout := EmptyString; stderr := EmptyString |}.

(** A server with one full page, which it gives at the second attempt,
    and one more extension on the second page. *)
Definition two_page_server : Env :=
  {| urlopen := λ n url,
       match n with
       | 0%nat => HttpFail 503
       | 1%nat => HttpOk (sample_extension <$> reverse (seqZ 1 25))
       | _ => HttpOk [sample_extension 0]
       end;
     nix_prefetch_url := λ _ _, no_process;
     read_text := λ _ _, None |}.

(** A server that refuses every request. *)
Definition forbidden_server : Env :=
  {| urlopen := λ _ _, HttpFail 403;
     nix_prefetch_url := λ _ _, no_process;
     read_text := λ _ _, None |}.

(** A store in which every download succeeds at once and every archive
    has the same small metadata file. *)
Definition ready_store : Env :=
  {| urlopen := λ _ _, HttpFail 404;
     nix_prefetch_url := λ _ _,
       {| returncode := 0;
          stdout := "0abc" +:+ nl +:+ "/nix/store/sample" +:+ nl;
          stderr := EmptyString |};
     read_text := λ _ _, Some "{}" |}.

(** An extension whose newest release serves two groups. *)
Definition battery_time : RawExtension :=
  {| raw_pk := 1475;
     raw_uuid := "batime@martin.zurowietz.de";
     raw_name := "Battery Time";
     raw_description := "Show the remaining time";
     raw_link := "/extension/1475/battery-time/";
     raw_shell_version_map :=
       <["45.1" := {| release_version := 12 |}]>
         (<["45" := {| release_version := 12 |}]>
            (<["44" := {| release_version := 12 |}]> ∅)) |}.

(** The URL of that release. *)
Definition sample_url : string := extension_url "batime@martin.zurowietz.de" "12".

(** A store in which the download succeeds at once, but the archive has
    no metadata file. *)
Definition store_without_metadata : Env :=
  {| urlopen := λ _ _, HttpFail 404;
     nix_prefetch_url := nix_prefetch_url ready_store;
     read_text := λ _ _, None |}.

(** A store in which the download succeeds at once and the metadata file
    has a character that is not ASCII. *)
Definition store_with_accent : Env :=
  {| urlopen := λ _ _, HttpFail 404;
     nix_prefetch_url := nix_prefetch_url ready_store;
     read_text := λ _ _, Some ("caf" +:+ String "233"%char EmptyString) |}.

(** An extension with the short name foo, for one shell version. *)
Definition foo_extension (pk : Z) (uuid : Uuid) (shell_version : ShellVersion) : RawExtension :=
  {| raw_pk := pk;
     raw_uuid := uuid;
     raw_name := "Foo";
     raw_description := "Foo";
     raw_link := "/extension/" +:+ Py.str_of_int pk +:+ "/foo/";
     raw_shell_version_map := {[shell_version := {| release_version := 1 |}]} |}.

(** An extension whose description has three closing braces in a row. *)
Definition braces_extension : ProcessedExtension :=
  {| uuid := "braces@example.org";
     name := "Braces";
     pname := "braces";
     description := "Closes }}} for you";
     link := "https://extensions.gnome.org/extension/1/braces/";
     shell_version_map :=
       [("46", {| version := "3"; sha256 := "0abc"; metadata := "e30=" |})] |}.

(** An extension for two versions, with a quote, a backslash and a line
    break in its texts. *)
Definition quoted_extension : ProcessedExtension :=
  {| uuid := "quoted@example.org";
     name := "Say " +:+ dq +:+ "hi" +:+ dq;
     pname := "quoted";
     description := "One" +:+ nl +:+ "two " +:+ backslash +:+ " {three}";
     link := "https://extensions.gnome.org/extension/2/quoted/";
     shell_version_map :=
       [("46", {| version := "3"; sha256 := "0abc"; metadata := "e30=" |});
        ("47", {| version := "4"; sha256 := "0def"; metadata := "e30=" |})] |}.

(** A text between double quotes. *)
Definition quoted (s : string) : string := dq +:+ s +:+ dq.

(** ** Observations of links and labels *)

(** The number of occurrences of a character in a text. *)
Fixpoint count_char (c : ascii) (s : string) : nat :=
  match s with
  | EmptyString => 0
  | String c' s' => (if Ascii.eqb c' c then 1 else 0) + count_char c s'
  end%nat.

(** A shell version label that some supported version takes into
    account: it starts with the prefix of a supported version. *)
Definition relevant (shell_ver : ShellVersion) : Prop :=
  ∃ item, item ∈ supported_versions ∧ Py.startswith shell_ver item.2 = true.

(** ** Observations of the registry and of the records *)

(** The registry [registry'] comes from [registry] by appending: it has
    the same shell versions, and under every shell version every name
    that was there is still there, with the identifiers it had as the
    first of its identifiers. *)
Definition registry_grows (registry registry' : gmap ShellVersion (gmap PackageName (list Uuid)))
    : Prop :=
  dom registry' = dom registry
  ∧ ∀ shell_version names, registry !! shell_version = Some names →
      ∃ names', registry' !! shell_version = Some names'
        ∧ ∀ pname uuids, names !! pname = Some uuids →
            ∃ uuids', names' !! pname = Some uuids' ∧ uuids `prefix_of` uuids'.

(** The registry has a dictionary for every supported version, as the
    module leaves it at import. *)
Definition registry_ready (registry : gmap ShellVersion (gmap PackageName (list Uuid))) : Prop :=
  ∀ shell_version, shell_version ∈ Py.dict_keys supported_versions →
    is_Some (registry !! shell_version).

(** The registry of [w'] comes from the registry of [w] by appending. *)
Definition world_grows (w w' : World) : Prop :=
  registry_grows (package_name_registry w) (package_name_registry w').

(** [steps R m]: running [m] takes every world to a world that [R]
    relates to it, however the run ends. *)
Definition steps {A : Type} (R : World → World → Prop) (m : M A) : Prop :=
  ∀ w, R w (m w).2.

(** The record has a release for some supported version: the selection
    of its releases is not empty. *)
Definition is_kept (extension : RawExtension) : bool :=
  bool_decide (select_versions (release_version <$> raw_shell_version_map extension) ≠ []).

(** The output record [e] is the one of the raw record [extension]: the
    identifier, the name and the description are taken over, the link is
    made absolute, the package name is the fourth segment of the link,
    and the shell versions are those of the selection, in its order,
    each with the selected version as a text. *)
Definition made_from (e : ProcessedExtension) (extension : RawExtension) : Prop :=
  uuid e = raw_uuid extension
  ∧ name e = raw_name extension
  ∧ description e = raw_description extension
  ∧ link e = "https://extensions.gnome.org" +:+ raw_link extension
  ∧ Py.split "/" (raw_link extension) !! 3%nat = Some (pname e)
  ∧ (λ entry, (entry.1, version entry.2)) <$> shell_version_map e
    = (λ item, (item.1, Py.str_of_int item.2))
        <$> select_versions (release_version <$> raw_shell_version_map extension).

(** The exceptions of a download that fails or gives no usable
    metadata, and of a link that cannot be parsed. *)
Definition record_failure (e : Exn) : Prop :=
  e = retried_10_times ∨ e = IndexError ∨ (∃ path, e = OSError path) ∨ e = UnicodeEncodeError.


(** ** More servers *)

(** The exchanges of full pages, each after its failures. *)
Definition full_pages (pages : list (list Z * list RawExtension)) : list Exchange :=
  (λ p, (p.1, HttpOk p.2)) <$> pages.

(** A server that is overloaded at every request. *)
Definition overloaded_server : Env :=
  {| urlopen := λ _ _, HttpFail 503;
     nix_prefetch_url := λ _ _, no_process;
     read_text := λ _ _, None |}.

(** A server that has a full page for every request. *)
Definition endless_server : Env :=
  {| urlopen := λ _ _, HttpOk (sample_extension <$> seqZ 0 25);
     nix_prefetch_url := λ _ _, no_process;
     read_text := λ _ _, None |}.

(** A server with one short page of two extensions, and a store in which
    every download succeeds at once. *)
Definition small_shop : Env :=
  {| urlopen := λ _ _, HttpOk [battery_time; sample_extension 1];
     nix_prefetch_url := nix_prefetch_url ready_store;
     read_text := read_text ready_store |}.

(** ** Observations of whole runs *)

(** What only the processing of the records changes: the registry, and
    the records of the runs of the tool and of the reads of files. *)
Definition processing_state (w : World)
    : gmap ShellVersion (gmap PackageName (list Uuid)) * list string * list string :=
  (package_name_registry w, prefetch_calls (trace w), read_calls (trace w)).

(** The failure of a request that a scrape does not take for the end of
    the index. *)
Definition scrape_failure (e : Exn) : Prop := ∃ code, e = HTTPError code ∧ code ≠ 404.

(** The failures of the script's own bookkeeping: a download loop that
    leaves no process, and a lookup that finds nothing for a supported
    shell version, as in the registry, or for a version number, as in
    the cache of downloads. *)
Definition lookup_failure (e : Exn) : Prop :=
  e = UnboundLocalError
  ∨ ∃ key, e = KeyError key
      ∧ (key ∈ Py.dict_keys supported_versions ∨ ∃ v : Z, key = Py.str_of_int v).

(** The registry lists the identifier [u] under the shell version
    [shell_version] and the name [pname]. *)
Definition listed (registry : gmap ShellVersion (gmap PackageName (list Uuid)))
    (shell_version : ShellVersion) (pname : PackageName) (u : Uuid) : Prop :=
  ∃ names uuids, registry !! shell_version = Some names
    ∧ names !! pname = Some uuids ∧ u ∈ uuids.

(** The output record has one of the last three versions among its
    shell versions. *)
Definition recent (e : ProcessedExtension) : Prop :=
  ∃ shell_version, shell_version ∈ Py.dict_keys (shell_version_map e)
    ∧ shell_version ∈ last_3_versions.
(** * Properties *)

Set Warnings "-clear-no-such-hyp".

(** ** Python primitives *)

Lemma foldl_max_ge (xs : list Z) (x : Z) : x ≤ foldl Z.max x xs.
Proof.
  revert x. induction xs as [|y xs IH]; intros x; simpl; [lia|].
  etrans; [|apply IH]. lia.
Qed.

Lemma foldl_max_upper (xs : list Z) (x y : Z) : y ∈ xs → y ≤ foldl Z.max x xs.
Proof.
  revert x. induction xs as [|z xs IH]; intros x Hy; simpl.
  - by apply elem_of_nil in Hy.
  - apply elem_of_cons in Hy as [->|Hy]; [|by apply IH].
    etrans; [|apply foldl_max_ge]. lia.
Qed.

Lemma foldl_max_elem (xs : list Z) (x : Z) : foldl Z.max x xs = x ∨ foldl Z.max x xs ∈ xs.
Proof.
  revert x. induction xs as [|z xs IH]; intros x; simpl; [by left|].
  destruct (IH (Z.max x z)) as [->|Hin].
  - destruct (Z.max_spec x z) as [[_ ->]|[_ ->]]; [right; left|by left].
  - right. by right.
Qed.

Lemma max_default_Some (xs : list Z) (v : Z) :
  Py.max_default xs = Some v ↔ v ∈ xs ∧ ∀ x, x ∈ xs → x ≤ v.
Proof.
  destruct xs as [|x xs]; simpl.
  - split; [done|]. intros [H _]. by apply elem_of_nil in H.
  - split.
    + intros [= <-]. split.
      * destruct (foldl_max_elem xs x) as [->|H]; [left|by right].
      * intros y [->|Hy]%elem_of_cons; [apply foldl_max_ge|by apply foldl_max_upper].
    + intros [Hin Hmax]. f_equal. apply Z.le_antisymm.
      * destruct (foldl_max_elem xs x) as [->|H]; apply Hmax; [left|by right].
      * apply elem_of_cons in Hin as [->|Hin]; [apply foldl_max_ge|by apply foldl_max_upper].
Qed.

Lemma max_default_None (xs : list Z) : Py.max_default xs = None ↔ xs = [].
Proof. by destruct xs. Qed.

Section OdictFacts.
Context {K V : Type} `{EqDecision K}.
Implicit Types d : Py.odict K V.

Lemma dict_set_fresh d k v : k ∉ d.*1 → Py.dict_set k v d = d ++ [(k, v)].
Proof.
  induction d as [|[k' v'] d IH]; simpl; [done|].
  intros Hk. apply not_elem_of_cons in Hk as [Hne Hk].
  destruct (decide (k' = k)) as [->|_]; [done|]. by rewrite IH.
Qed.

Lemma dict_get_Some d k v : NoDup d.*1 → Py.dict_get k d = Some v ↔ (k, v) ∈ d.
Proof.
  induction d as [|[k' v'] d IH]; simpl.
  - intros _. split; [done|]. intros H. by apply elem_of_nil in H.
  - intros [Hk' Hd]%NoDup_cons. destruct (decide (k' = k)) as [->|Hne].
    + split.
      * intros [= ->]. left.
      * intros [[= ->]|Hin]%elem_of_cons; [done|].
        exfalso. apply Hk'. apply list_elem_of_fmap. by exists (k, v).
    + rewrite IH by done. split; [by right|].
      by intros [[= -> ->]|Hin]%elem_of_cons.
Qed.

Lemma dict_get_None d k : Py.dict_get k d = None ↔ k ∉ d.*1.
Proof.
  induction d as [|[k' v'] d IH]; simpl.
  - split; [intros _; apply not_elem_of_nil|done].
  - destruct (decide (k' = k)) as [->|Hne].
    + split; [done|]. intros H. exfalso. apply H. left.
    + rewrite IH. rewrite not_elem_of_cons. naive_solver.
Qed.

End OdictFacts.

(** ** Version selector *)

Section VersionSelector.
Implicit Types m : gmap ShellVersion ExtensionVersion.

Lemma compatible_versions_elem m version_prefix x :
  x ∈ (filter (λ item, Is_true (Py.startswith item.1 version_prefix)) (map_to_list m)).*2
  ↔ ∃ shell_ver, m !! shell_ver = Some x ∧ Py.startswith shell_ver version_prefix = true.
Proof.
  rewrite list_elem_of_fmap. split.
  - intros [[k x'] [-> [Hp Hk]%list_elem_of_filter]]. simpl in *.
    exists k. split; [by apply elem_of_map_to_list|by apply Is_true_true].
  - intros (k & Hk & Hp). exists (k, x). split; [done|].
    apply list_elem_of_filter. split; [by apply Is_true_true|by apply elem_of_map_to_list].
Qed.

Lemma newest_compatible_Some m version_prefix v :
  newest_compatible m version_prefix = Some v ↔
    (∃ shell_ver, m !! shell_ver = Some v ∧ Py.startswith shell_ver version_prefix = true)
    ∧ ∀ shell_ver v', m !! shell_ver = Some v' →
        Py.startswith shell_ver version_prefix = true → v' ≤ v.
Proof.
  unfold newest_compatible. rewrite max_default_Some, compatible_versions_elem.
  split; intros [Hv Hmax]; (split; [done|]).
  - intros k v' Hk Hp. apply Hmax, compatible_versions_elem. eauto.
  - intros x (k & Hk & Hp)%compatible_versions_elem. eauto.
Qed.

Lemma newest_compatible_None m version_prefix :
  newest_compatible m version_prefix = None ↔
    ∀ shell_ver v, m !! shell_ver = Some v → Py.startswith shell_ver version_prefix = false.
Proof.
  unfold newest_compatible. rewrite max_default_None. split.
  - intros Hnil k v Hk. destruct (Py.startswith k version_prefix) eqn:Hp; [|done].
    assert (Hin : v ∈ (filter (λ item, Is_true (Py.startswith item.1 version_prefix))
                         (map_to_list m)).*2) by (apply compatible_versions_elem; eauto).
    rewrite Hnil in Hin. by apply elem_of_nil in Hin.
  - intros Hnone.
    destruct ((filter _ (map_to_list m)).*2) as [|x xs] eqn:Hl; [done|].
    assert (Hin : x ∈ x :: xs) by left. rewrite <- Hl in Hin.
    apply compatible_versions_elem in Hin as (k & Hk & Hp).
    rewrite (Hnone _ _ Hk) in Hp. done.
Qed.

Lemma select_fold m (l : list (ShellVersion * string)) (acc : Py.odict ShellVersion ExtensionVersion) :
  NoDup l.*1 → (∀ k, k ∈ l.*1 → k ∉ acc.*1) →
  foldl (λ extension_versions item,
           let extension_version := newest_compatible m item.2 in
           if negb (Py.truthy extension_version) then extension_versions
           else match extension_version with
                | Some v => Py.dict_set item.1 v extension_versions
                | None => extension_versions
                end) acc l
  = acc ++ omap (selected m) l.
Proof.
  revert acc. induction l as [|[k p] l IH]; intros acc Hnd Hfresh; simpl.
  - by rewrite app_nil_r.
  - apply NoDup_cons in Hnd as [Hk Hnd]. rewrite IH; [|done|].
    + unfold selected; simpl. destruct (newest_compatible m p) as [v|]; simpl; [|done].
      destruct (v =? 0); simpl; [done|].
      rewrite dict_set_fresh by (apply Hfresh; left). by rewrite <- app_assoc.
    + intros k' Hk'. destruct (newest_compatible m p) as [v|]; simpl;
        [destruct (v =? 0); simpl|]; try (apply Hfresh; by right).
      rewrite dict_set_fresh by (apply Hfresh; left).
      rewrite fmap_app, elem_of_app. intros [Hin|Hin%list_elem_of_singleton].
      * revert Hin. apply Hfresh. by right.
      * simpl in Hin. by subst.
Qed.

Lemma supported_versions_NoDup : NoDup (Py.dict_keys supported_versions).
Proof. apply (bool_decide_unpack _). by vm_compute. Qed.

Lemma select_versions_omap m : select_versions m = omap (selected m) supported_versions.
Proof.
  unfold select_versions. rewrite select_fold; [done|apply supported_versions_NoDup|].
  intros k _. apply not_elem_of_nil.
Qed.

Lemma omap_selected_keys m (l : list (ShellVersion * string)) :
  (omap (selected m) l).*1 `sublist_of` l.*1.
Proof.
  induction l as [|[k p] l IH]; simpl; [done|].
  unfold selected at 1; simpl. destruct (newest_compatible m p) as [v|]; simpl.
  - destruct (v =? 0); simpl; [by apply sublist_cons|by apply sublist_skip].
  - by apply sublist_cons.
Qed.

Lemma select_versions_keys_sublist m :
  Py.dict_keys (select_versions m) `sublist_of` Py.dict_keys supported_versions.
Proof. rewrite select_versions_omap. apply omap_selected_keys. Qed.

Lemma select_versions_NoDup m : NoDup (Py.dict_keys (select_versions m)).
Proof.
  eapply sublist_NoDup; [apply supported_versions_NoDup|apply select_versions_keys_sublist].
Qed.

(** The selection maps a group to [v] exactly when [v] is the newest
    compatible version of the group and is not 0. *)
Lemma select_versions_lookup m shell_version v :
  Py.dict_get shell_version (select_versions m) = Some v ↔
    ∃ version_prefix, (shell_version, version_prefix) ∈ supported_versions
      ∧ newest_compatible m version_prefix = Some v ∧ v ≠ 0.
Proof.
  rewrite dict_get_Some by apply select_versions_NoDup.
  rewrite select_versions_omap, list_elem_of_omap. split.
  - intros ([k p] & Hin & Hsel). unfold selected in Hsel; simpl in Hsel.
    destruct (newest_compatible m p) as [v'|] eqn:Hn; [|done].
    destruct (v' =? 0) eqn:Hz; [done|]. injection Hsel as -> ->.
    exists p. split_and!; [done..|lia].
  - intros (p & Hin & Hn & Hv). exists (shell_version, p). split; [done|].
    unfold selected; simpl. rewrite Hn.
    destruct (v =? 0) eqn:Hz; [lia|done].
Qed.

End VersionSelector.

(** ** Reasoning about runs *)

Section Keeps.
Context {X : Type} (f : World → X).

Lemma keeps_ret {A} (a : A) : keeps f (ret a).
Proof. by intros w. Qed.

Lemma keeps_raise {A} (e : Exn) : keeps f (raise (A := A) e).
Proof. by intros w. Qed.

Lemma keeps_bind {A B} (m : M A) (k : A → M B) :
  keeps f m → (∀ a, keeps f (k a)) → keeps f (bind m k).
Proof.
  intros Hm Hk w. unfold bind. specialize (Hm w).
  destruct (m w) as [[a|e] w1]; simpl in *; [|done].
  by rewrite Hk.
Qed.

Lemma keeps_try_except {A} (m : M A) (handler : Exn → option (M A)) :
  keeps f m → (∀ e h, handler e = Some h → keeps f h) → keeps f (try_except m handler).
Proof.
  intros Hm Hh w. unfold try_except. specialize (Hm w).
  destruct (m w) as [[a|e] w1]; simpl in *; [done|].
  destruct (handler e) as [h|] eqn:He; [|done].
  by rewrite (Hh _ _ He).
Qed.

Lemma keeps_for_each {A B} (l : list A) (b : B) (body : B → A → M B) :
  (∀ b a, keeps f (body b a)) → keeps f (for_each l b body).
Proof.
  intros Hbody. revert b. induction l as [|a l IH]; intros b; simpl.
  - apply keeps_ret.
  - apply keeps_bind; [apply Hbody|done].
Qed.

Lemma keeps_index {A} (l : list A) (i : nat) : keeps f (index l i).
Proof. unfold index. destruct (l !! i); [apply keeps_ret|apply keeps_raise]. Qed.

Lemma keeps_get_registry : keeps f get_registry.
Proof. by intros w. Qed.

End Keeps.

(** One step of a proof that a run keeps an observation: the structure of
    the program decides the lemma, and [leaf] is tried on the calls of the
    program's own functions. *)
Ltac keeps_step leaf :=
  lazymatch goal with
  | |- keeps _ (ret _) => apply keeps_ret
  | |- keeps _ (raise _) => apply keeps_raise
  | |- keeps _ (bind _ _) => apply keeps_bind; [|intros ?]
  | |- keeps _ (try_except _ _) => apply keeps_try_except; [|intros ? ? ?]
  | |- keeps _ (for_each _ _ _) => apply keeps_for_each; intros ? ?
  | |- keeps _ (index _ _) => apply keeps_index
  | |- keeps _ get_registry => apply keeps_get_registry
  | |- keeps _ (logging _ _) => by intros ?
  | |- keeps _ (emit _) => by intros ?
  | |- keeps _ (match ?x with _ => _ end) => destruct x eqn:?
  | |- keeps _ _ => solve [leaf]
  end.

Ltac keeps_with leaf := repeat (keeps_step leaf; cbv beta iota zeta).

Ltac keeps_auto := keeps_with fail.

Lemma encode_ascii_keeps {X} (f : World → X) text : keeps f (encode_ascii text).
Proof. unfold encode_ascii. keeps_auto. Qed.

Lemma subprocess_run_keeps_registry env url :
  keeps package_name_registry (subprocess_run_nix_prefetch_url env url).
Proof. by intros w. Qed.

Lemma open_read_keeps_registry env path : keeps package_name_registry (open_read env path).
Proof. intros w. unfold open_read, bind; simpl. by destruct (read_text _ _ _). Qed.

Lemma prefetch_loop_keeps_registry env iterations url process :
  keeps package_name_registry (prefetch_loop env iterations url process).
Proof.
  revert process. induction iterations as [|i iterations IH]; intros process; simpl;
    keeps_with ltac:(first [apply subprocess_run_keeps_registry|apply IH]).
Qed.

Lemma fetch_extension_data_keeps_registry env uuid version :
  keeps package_name_registry (fetch_extension_data env uuid version).
Proof.
  unfold fetch_extension_data.
  keeps_with ltac:(first [apply prefetch_loop_keeps_registry
                         |apply open_read_keeps_registry
                         |apply encode_ascii_keeps]).
Qed.

Lemma generate_extension_versions_keeps_registry env m uuid :
  keeps package_name_registry (generate_extension_versions env m uuid).
Proof.
  unfold generate_extension_versions.
  keeps_with ltac:(apply fetch_extension_data_keeps_registry).
Qed.

Lemma bind_Return_inv {A B} (m : M A) (k : A → M B) w b w' :
  bind m k w = (Return b, w') → ∃ a w1, m w = (Return a, w1) ∧ k a w1 = (Return b, w').
Proof.
  unfold bind. destruct (m w) as [[a|e] w1]; [|done]. intros Hk. by exists a, w1.
Qed.

Lemma keeps_eq {X A} (f : World → X) (m : M A) w r w' :
  keeps f m → m w = (r, w') → f w' = f w.
Proof. intros Hm Hw. specialize (Hm w). by rewrite Hw in Hm. Qed.

(** ** The last loop of [generate_extension_versions] *)

Lemma fill_loop cache items acc w full w' :
  NoDup items.*1 → (∀ k, k ∈ items.*1 → k ∉ acc.*1) →
  for_each items acc (fill cache) w = (Return full, w') →
  w' = w ∧
  ∃ infos, Forall2 (λ item info, cache !! item.2 = Some info) items infos ∧
    full = acc ++ zip_with (λ item info,
                              (item.1, {| version := Py.str_of_int item.2;
                                          sha256 := info.1; metadata := info.2 |}))
                           items infos.
Proof.
  revert acc w. induction items as [|[k v] items IH]; intros acc w Hnd Hfresh; simpl.
  - intros [= -> ->]. split; [done|]. exists []. split; [constructor|by rewrite app_nil_r].
  - apply NoDup_cons in Hnd as [Hk Hnd].
    intros (acc' & w1 & Hfill & Hrest)%bind_Return_inv.
    unfold fill in Hfill; simpl in Hfill.
    destruct (cache !! v) as [info|] eqn:Hc; [|done].
    injection Hfill as <- <-.
    rewrite dict_set_fresh in Hrest by (apply Hfresh; left).
    apply IH in Hrest as (-> & infos & Hall & ->); [|done|].
    + split; [done|]. exists (info :: infos). split; [by constructor|].
      by rewrite <- app_assoc.
    + intros k' Hk'. rewrite fmap_app, elem_of_app.
      intros [Hin|Hin%list_elem_of_singleton].
      * revert Hin. apply Hfresh. by right.
      * simpl in Hin. by subst.
Qed.

Lemma generate_extension_versions_Return env m uuid w full w' :
  generate_extension_versions env m uuid w = (Return full, w') →
  ∃ infos, length infos = length (select_versions m) ∧
    full = zip_with (λ item info,
                       (item.1, {| version := Py.str_of_int item.2;
                                   sha256 := info.1; metadata := info.2 |}))
                    (select_versions m) infos.
Proof.
  unfold generate_extension_versions.
  intros (cache & w1 & _ & Hfill)%bind_Return_inv.
  apply (fill_loop cache) in Hfill as (_ & infos & Hall & ->).
  - exists infos. split; [symmetry; by eapply Forall2_length|done].
  - apply select_versions_NoDup.
  - intros k _. apply not_elem_of_nil.
Qed.

Lemma generate_extension_versions_keys env m uuid w full w' :
  generate_extension_versions env m uuid w = (Return full, w') →
  Py.dict_keys full = Py.dict_keys (select_versions m).
Proof.
  intros (infos & Hlen & ->)%generate_extension_versions_Return.
  unfold Py.dict_keys. revert infos Hlen.
  induction (select_versions m) as [|[k v] l IH]; intros [|info infos] Hlen; simpl in *;
    try done.
  f_equal. apply IH. lia.
Qed.

(** Nothing is selected: nothing is fetched, and the world is as before. *)
Lemma generate_extension_versions_nil env m uuid w :
  select_versions m = [] → generate_extension_versions env m uuid w = (Return [], w).
Proof. unfold generate_extension_versions. by intros ->. Qed.

(** ** Extension transformer *)

(** C10: whenever [process_extension] skips a record, because its
    compatibility map is empty or because the version selection has no
    group, it returns [None] and the [package_name_registry] is as it was
    before the call; and it returns [None] in no other case. *)
Theorem process_extension_skip_keeps_registry env extension w :
  (raw_shell_version_map extension = ∅
   ∨ select_versions (release_version <$> raw_shell_version_map extension) = [] →
   ∃ w', process_extension env extension w = (Return None, w')
         ∧ package_name_registry w' = package_name_registry w)
  ∧ (∀ w', process_extension env extension w = (Return None, w') →
       package_name_registry w' = package_name_registry w
       ∧ (raw_shell_version_map extension = ∅
          ∨ select_versions (release_version <$> raw_shell_version_map extension) = [])).
Proof.
  unfold process_extension. split.
  - intros Hskip. destruct (decide _) as [Hempty|Hne]; [by exists w|].
    destruct Hskip as [?|Hsel]; [done|].
    unfold bind at 1; simpl. unfold bind at 1.
    rewrite generate_extension_versions_nil by done. eauto.
  - intros w'. destruct (decide _) as [Hempty|Hne].
    + intros [= <-]. eauto.
    + intros (u & w1 & Hlog & Hrun)%bind_Return_inv. injection Hlog as <-.
      apply bind_Return_inv in Hrun as (svm & w2 & Hgen & Hrest).
      destruct svm as [|entry svm].
      * injection Hrest as <-. split.
        -- apply (keeps_eq _ _ _ _ _ (generate_extension_versions_keeps_registry _ _ _)) in Hgen.
           rewrite Hgen. by subst w1.
        -- right. apply generate_extension_versions_keys in Hgen.
           destruct (select_versions _); [done|discriminate].
      * apply bind_Return_inv in Hrest as (names & w3 & _ & Hrest).
        apply bind_Return_inv in Hrest as (u' & w4 & _ & Hrest). discriminate.
Qed.

Lemma register_pname_Return pname uuid shell_version w w' :
  register_pname pname uuid shell_version w = (Return tt, w') →
  ∃ names, package_name_registry w !! shell_version = Some names
    ∧ package_name_registry w' =
        <[shell_version := <[pname := default [] (names !! pname) ++ [uuid]]> names]>
          (package_name_registry w).
Proof.
  unfold register_pname.
  intros (registry & w1 & Hget & Hrest)%bind_Return_inv. injection Hget as <- <-.
  destruct (package_name_registry w !! shell_version) as [names|] eqn:Hnames; [|done].
  exists names. split; [done|].
  destruct (names !! pname) as [uuids|] eqn:Huuids; simpl.
  - apply bind_Return_inv in Hrest as (u & w2 & Hlog & Hset).
    injection Hlog as <-. by injection Hset as <-.
  - by injection Hrest as <-.
Qed.

Lemma register_loop pname uuid keys w w' :
  NoDup keys →
  for_each keys tt (λ _ shell_version, register_pname pname uuid shell_version) w
    = (Return tt, w') →
  ∀ shell_version,
    (shell_version ∈ keys →
       ∃ names, package_name_registry w !! shell_version = Some names
         ∧ package_name_registry w' !! shell_version
           = Some (<[pname := default [] (names !! pname) ++ [uuid]]> names))
    ∧ (shell_version ∉ keys →
         package_name_registry w' !! shell_version = package_name_registry w !! shell_version).
Proof.
  revert w. induction keys as [|k keys IH]; intros w Hnd; simpl.
  - intros [= <-] g. split; [by intros ?%elem_of_nil|done].
  - apply NoDup_cons in Hnd as [Hk Hnd].
    intros ([] & w1 & Hreg & Hrest)%bind_Return_inv g.
    apply register_pname_Return in Hreg as (names & Hnames & Hw1).
    specialize (IH _ Hnd Hrest g) as [IHin IHout]. rewrite Hw1 in IHin, IHout.
    split.
    + intros [->|Hin]%elem_of_cons.
      * exists names. split; [done|]. rewrite (IHout Hk). apply lookup_insert_eq.
      * assert (k ≠ g) by (by intros ->).
        rewrite lookup_insert_ne in IHin by done. by apply IHin.
    + intros [Hne Hout]%not_elem_of_cons. rewrite (IHout Hout).
      by rewrite lookup_insert_ne.
Qed.

Lemma process_extension_Some env extension w e w' :
  process_extension env extension w = (Return (Some e), w') →
  ∃ w1 w2 names,
    generate_extension_versions env (release_version <$> raw_shell_version_map extension)
      (raw_uuid extension) w1 = (Return (shell_version_map e), w2)
    ∧ package_name_registry w1 = package_name_registry w
    ∧ pname_from_url (raw_link extension) w2 = (Return names, w2)
    ∧ for_each (Py.dict_keys (shell_version_map e)) tt
        (λ _ shell_version, register_pname names.1 (raw_uuid extension) shell_version) w2
      = (Return tt, w')
    ∧ e = {| uuid := raw_uuid extension;
             name := raw_name extension;
             pname := names.1;
             description := raw_description extension;
             link := "https://extensions.gnome.org" +:+ raw_link extension;
             shell_version_map := shell_version_map e |}.
Proof.
  unfold process_extension. destruct (decide _) as [Hempty|Hne]; [done|].
  intros (u & w1 & Hlog & Hrun)%bind_Return_inv. injection Hlog as <-.
  apply bind_Return_inv in Hrun as (svm & w2 & Hgen & Hrest).
  destruct svm as [|entry svm]; [done|].
  apply bind_Return_inv in Hrest as (names & w3 & Hnames & Hrest).
  apply bind_Return_inv in Hrest as ([] & w4 & Hloop & Hret).
  injection Hret as <- <-. simpl.
  assert (w3 = w2) as ->.
  { unfold pname_from_url in Hnames.
    apply bind_Return_inv in Hnames as (a & wa & Ha & Hnames).
    apply bind_Return_inv in Hnames as (b & wb & Hb & Hnames).
    unfold index in Ha, Hb.
    destruct (_ !! 3%nat); [|done]. destruct (_ !! 2%nat); [|done].
    injection Ha as <- <-. injection Hb as <- <-. by injection Hnames as <-. }
  eexists _, w2, names. split_and!; [exact Hgen|by subst w1|done|exact Hloop|done].
Qed.

Lemma main_Return env fuel w extensions_json report w' :
  main env fuel w = (Return (Some (extensions_json, report)), w') →
  report = collisions (package_name_registry w')
  ∧ loads extensions_json ≠ None.
Proof.
  unfold main.
  intros (raw & w1 & _ & Hrest)%bind_Return_inv.
  destruct raw as [raw_extensions|]; [|done].
  apply bind_Return_inv in Hrest as (u1 & w2 & _ & Hrest).
  apply bind_Return_inv in Hrest as (processed & w3 & _ & Hrest).
  apply bind_Return_inv in Hrest as (u2 & w4 & _ & Hrest).
  destruct (loads _) eqn:Hloads; [|done].
  apply bind_Return_inv in Hrest as (registry & w5 & Hget & Hrest).
  injection Hget as <- <-.
  apply bind_Return_inv in Hrest as (u3 & w6 & Hlog & Hret).
  unfold ret in Hret. injection Hlog as <-. simplify_eq/=. by rewrite Hloads.
Qed.

(** C9: when [process_extension] turns a raw record into an output record,
    the registry changes in exactly this way: for every group of the
    record's version selection, the record's identifier is appended once
    to the entry for the group and the short name, an absent entry being
    created; every other group is as before.  The collision report is
    made from the registry as it is when the script ends. *)
Theorem registry_updated_once_per_group :
  (∀ env extension w e w',
     process_extension env extension w = (Return (Some e), w') →
     uuid e = raw_uuid extension
     ∧ Py.dict_keys (shell_version_map e)
       = Py.dict_keys (select_versions (release_version <$> raw_shell_version_map extension))
     ∧ ∀ shell_version,
         (shell_version ∈ Py.dict_keys (shell_version_map e) →
            ∃ names, package_name_registry w !! shell_version = Some names
              ∧ package_name_registry w' !! shell_version
                = Some (<[pname e := default [] (names !! pname e) ++ [uuid e]]> names))
         ∧ (shell_version ∉ Py.dict_keys (shell_version_map e) →
              package_name_registry w' !! shell_version
              = package_name_registry w !! shell_version))
  ∧ (∀ env fuel w extensions_json report w',
       main env fuel w = (Return (Some (extensions_json, report)), w') →
       report = collisions (package_name_registry w')).
Proof.
  split.
  - intros env extension w e w' Hrun.
    apply process_extension_Some in Hrun as (w1 & w2 & names & Hgen & Hw1 & _ & Hloop & He).
    pose proof (generate_extension_versions_keys _ _ _ _ _ _ Hgen) as Hkeys.
    assert (Hreg : package_name_registry w2 = package_name_registry w).
    { rewrite <- Hw1.
      apply (keeps_eq _ _ _ _ _ (generate_extension_versions_keeps_registry _ _ _) Hgen). }
    split_and!; [by rewrite He|done|].
    intros g. rewrite <- Hreg.
    replace (pname e) with names.1 by (by rewrite He).
    replace (uuid e) with (raw_uuid extension) by (by rewrite He).
    apply register_loop; [|done].
    rewrite Hkeys. apply select_versions_NoDup.
  - intros env fuel w extensions_json report w' Hmain.
    by apply main_Return in Hmain as [-> _].
Qed.

(** ** Collision report *)

Section Collisions.
Implicit Types acc : gmap PackageName (gset Uuid).
Implicit Types registry : gmap ShellVersion (gmap PackageName (list Uuid)).

Lemma merge_names_holds acc item pname u :
  holds (merge_names acc item) pname u ↔ holds acc pname u ∨ (pname = item.1 ∧ u ∈ item.2).
Proof.
  destruct item as [p us]; simpl. unfold holds, merge_names; simpl.
  destruct (decide (pname = p)) as [->|Hne].
  - destruct (acc !! p) as [s|] eqn:Hs.
    + rewrite lookup_alter_eq, Hs; simpl. split.
      * intros (s' & [= <-] & [Hu|Hu%elem_of_list_to_set]%elem_of_union); eauto.
      * intros [(s' & [= <-] & Hu)|[_ Hu]]; eexists; (split; [done|]); set_solver.
    + rewrite lookup_alter_eq, lookup_insert_eq; simpl. split.
      * intros (s' & [= <-] & Hu). right. set_solver.
      * intros [(s' & ? & _)|[_ Hu]]; [done|]. eexists; split; [done|]. set_solver.
  - assert (Hlook : ∀ m : gmap PackageName (gset Uuid),
              alter (λ uuids, uuids ∪ list_to_set us) p m !! pname = m !! pname)
      by (intros m; by rewrite lookup_alter_ne).
    destruct (acc !! p); rewrite Hlook; [|rewrite lookup_insert_ne by done]; naive_solver.
Qed.

Lemma merge_items_holds (items : list (PackageName * list Uuid)) acc pname u :
  holds (foldl merge_names acc items) pname u
  ↔ holds acc pname u ∨ ∃ uuids, (pname, uuids) ∈ items ∧ u ∈ uuids.
Proof.
  revert acc. induction items as [|[p us] items IH]; intros acc; simpl.
  - split; [by left|]. intros [?|(? & ?%elem_of_nil & _)]; done.
  - rewrite IH, merge_names_holds; simpl. split.
    + intros [[?|[-> ?]]|(us' & ? & ?)]; [by left|right..].
      * exists us. split; [left|done].
      * exists us'. split; [by right|done].
    + intros [?|(us' & [[= -> ->]|?]%elem_of_cons & ?)]; [by left; left|by left; right|].
      right. by exists us'.
Qed.

Lemma merge_all_holds (pkgss : list (gmap PackageName (list Uuid))) acc pname u :
  holds (foldl (λ acc pkgs, foldl merge_names acc (map_to_list pkgs)) acc pkgss) pname u
  ↔ holds acc pname u
    ∨ ∃ pkgs uuids, pkgs ∈ pkgss ∧ pkgs !! pname = Some uuids ∧ u ∈ uuids.
Proof.
  revert acc. induction pkgss as [|pkgs pkgss IH]; intros acc; simpl.
  - split; [by left|]. intros [?|(? & ? & ?%elem_of_nil & _)]; done.
  - rewrite IH, merge_items_holds. split.
    + intros [[?|(us & ?%elem_of_map_to_list & ?)]|(pkgs' & us & ? & ? & ?)]; [by left|right..].
      * exists pkgs, us. split_and!; [left|done..].
      * exists pkgs', us. split_and!; [by right|done..].
    + intros [?|(pkgs' & us & [->|?]%elem_of_cons & ? & ?)]; [by left; left| |].
      * left; right. exists us. split; [by apply elem_of_map_to_list|done].
      * right. by exists pkgs', us.
Qed.

Lemma merged_registered registry pname u :
  holds (foldl (λ acc pkgs, foldl merge_names acc (map_to_list pkgs)) ∅
           (filter (λ kv, kv.1 ∈ last_3_versions) (map_to_list registry)).*2) pname u
  ↔ registered registry pname u.
Proof.
  rewrite merge_all_holds. unfold registered. split.
  - intros [(s & Hs & _)|(pkgs & us & Hin & Hus & Hu)]; [by rewrite lookup_empty in Hs|].
    apply list_elem_of_fmap in Hin as ([k pkgs'] & -> & [Hk Hin]%list_elem_of_filter).
    apply elem_of_map_to_list in Hin. simpl in *. by exists k, pkgs', us.
  - intros (k & names & us & Hk & Hnames & Hus & Hu). right. exists names, us.
    split_and!; [|done..]. apply list_elem_of_fmap. exists (k, names). split; [done|].
    apply list_elem_of_filter. split; [done|by apply elem_of_map_to_list].
Qed.

Lemma size_gt_1 (s : gset Uuid) : (1 < size s)%nat ↔ ∃ u1 u2, u1 ≠ u2 ∧ u1 ∈ s ∧ u2 ∈ s.
Proof.
  split.
  - intros Hsize.
    destruct (set_choose_L s) as [u1 Hu1].
    { intros ->. rewrite size_empty in Hsize. lia. }
    destruct (set_choose_L (s ∖ {[u1]})) as [u2 Hu2].
    { intros Hempty. assert (Hs : size (s ∖ {[u1]}) = 0%nat) by (by rewrite Hempty, size_empty).
      rewrite size_difference in Hs by set_solver. rewrite size_singleton in Hs. lia. }
    exists u1, u2. set_solver.
  - intros (u1 & u2 & Hne & Hu1 & Hu2).
    assert (Hsub : ({[u1]} ∪ {[u2]} : gset Uuid) ⊆ s) by set_solver.
    apply subseteq_size in Hsub. rewrite size_union in Hsub by set_solver.
    rewrite !size_singleton in Hsub. lia.
Qed.

Lemma collisions_lookup registry pname uuids :
  collisions registry !! pname = Some uuids ↔
    ∃ s : gset Uuid, uuids = elements s ∧ (1 < size s)%nat
      ∧ ∀ u, u ∈ s ↔ registered registry pname u.
Proof.
  unfold collisions, package_name_registry_filtered.
  rewrite lookup_fmap, fmap_Some. split.
  - intros (s & [Hs Hsize]%map_lookup_filter_Some & ->). simpl in Hsize.
    exists s. split_and!; [done..|]. intros u. rewrite <- merged_registered.
    unfold holds. rewrite Hs. naive_solver.
  - intros (s & -> & Hsize & Hs).
    destruct (set_choose_L s) as [u0 Hu0].
    { intros ->. rewrite size_empty in Hsize. lia. }
    apply Hs, merged_registered in Hu0 as (s' & Hs' & _).
    assert (s' = s) as ->.
    { apply set_eq. intros u. rewrite Hs, <- merged_registered. unfold holds.
      rewrite Hs'. naive_solver. }
    exists s. split; [|done]. by apply map_lookup_filter_Some.
Qed.

End Collisions.

(** C4: the collision report is made from the three supported versions
    with the highest numeric labels, 47, 46 and 45 in descending order; it
    has an entry for a short name if and only if at least two distinct
    identifiers are registered under that name for those versions, the
    entry lists exactly these identifiers, each once, and a name with a
    single identifier has no entry. *)
Theorem collision_report_spec :
  last_3_versions = ["47"; "46"; "45"]
  ∧ Forall (λ v, v ∈ last_3_versions ∨ default 0 (float_of_str v) < 45)
           (Py.dict_keys supported_versions)
  ∧ ∀ (registry : gmap ShellVersion (gmap PackageName (list Uuid))) (pname : PackageName),
      (is_Some (collisions registry !! pname) ↔
         ∃ u1 u2, u1 ≠ u2 ∧ registered registry pname u1 ∧ registered registry pname u2)
      ∧ (∀ uuids, collisions registry !! pname = Some uuids →
           NoDup uuids ∧ ∀ u, u ∈ uuids ↔ registered registry pname u)
      ∧ ((∀ u1 u2, registered registry pname u1 → registered registry pname u2 → u1 = u2) →
           collisions registry !! pname = None).
Proof.
  split; [by vm_compute|]. split; [apply (bool_decide_unpack _); by vm_compute|].
  intros registry pname.
  assert (Hentry : is_Some (collisions registry !! pname) ↔
            ∃ u1 u2, u1 ≠ u2 ∧ registered registry pname u1 ∧ registered registry pname u2).
  { split.
    - intros [uuids (s & _ & (u1 & u2 & Hne & Hu1 & Hu2)%size_gt_1 & Hs)%collisions_lookup].
      exists u1, u2. split_and!; [done|by apply Hs..].
    - intros (u1 & u2 & Hne & Hu1 & Hu2).
      destruct (collisions registry !! pname) as [uuids|] eqn:Hc; [done|exfalso].
      unfold collisions, package_name_registry_filtered in Hc.
      rewrite lookup_fmap, fmap_None, map_lookup_filter_None in Hc.
      apply merged_registered in Hu1 as (s & Hs & Hu1).
      apply merged_registered in Hu2 as (s' & Hs' & Hu2).
      assert (s' = s) as -> by congruence.
      destruct Hc as [Hc|Hc]; [congruence|].
      apply (Hc s Hs). simpl. apply size_gt_1. by exists u1, u2. }
  split_and!; [done| |].
  - intros uuids (s & -> & _ & Hs)%collisions_lookup. split; [apply NoDup_elements|].
    intros u. by rewrite elem_of_elements.
  - intros Hsingle. apply eq_None_not_Some.
    intros (u1 & u2 & Hne & Hu1 & Hu2)%Hentry. by specialize (Hsingle _ _ Hu1 Hu2).
Qed.

(** ** Sorting *)

Section SortedFacts.
Context {A : Type} (key : A → Z).

Lemma insert_by_perm (x : A) (l : list A) : Py.insert_by key x l ≡ₚ x :: l.
Proof.
  induction l as [|y l IH]; simpl; [done|].
  destruct (key y <=? key x); [|done]. rewrite IH. apply Permutation_swap.
Qed.

Lemma sorted_by_fold_perm (l acc : list A) :
  foldl (λ acc x, Py.insert_by key x acc) acc l ≡ₚ acc ++ l.
Proof.
  revert acc. induction l as [|x l IH]; intros acc; simpl.
  - by rewrite app_nil_r.
  - rewrite IH, insert_by_perm. apply Permutation_middle.
Qed.

Lemma sorted_by_perm (l : list A) : Py.sorted_by key l ≡ₚ l.
Proof. unfold Py.sorted_by. by rewrite sorted_by_fold_perm. Qed.

Lemma insert_by_sorted (x : A) (l : list A) :
  StronglySorted (λ a b, key a ≤ key b) l →
  StronglySorted (λ a b, key a ≤ key b) (Py.insert_by key x l).
Proof.
  induction 1 as [|y l Hl IH Hy]; simpl.
  - repeat constructor.
  - destruct (key y <=? key x) eqn:Hle.
    + constructor; [done|]. rewrite insert_by_perm. constructor; [lia|done].
    + constructor; [by constructor|]. constructor; [lia|].
      eapply Forall_impl; [exact Hy|]. simpl. intros z Hz. lia.
Qed.

Lemma sorted_by_sorted (l : list A) :
  StronglySorted (λ a b, key a ≤ key b) (Py.sorted_by key l).
Proof.
  unfold Py.sorted_by.
  assert (H : ∀ acc, StronglySorted (λ a b, key a ≤ key b) acc →
                StronglySorted (λ a b, key a ≤ key b)
                  (foldl (λ acc x, Py.insert_by key x acc) acc l)).
  { induction l as [|x l IH]; intros acc Hacc; simpl; [done|].
    by apply IH, insert_by_sorted. }
  apply H. constructor.
Qed.

End SortedFacts.

(** ** Fetches of [generate_extension_versions] *)

Lemma subprocess_run_keeps_fetch_calls env url :
  keeps (λ w, fetch_calls (trace w)) (subprocess_run_nix_prefetch_url env url).
Proof. by intros w. Qed.

Lemma open_read_keeps_fetch_calls env path :
  keeps (λ w, fetch_calls (trace w)) (open_read env path).
Proof. intros w. unfold open_read, bind; simpl. by destruct (read_text _ _ _). Qed.

Lemma prefetch_loop_keeps_fetch_calls env iterations url process :
  keeps (λ w, fetch_calls (trace w)) (prefetch_loop env iterations url process).
Proof.
  revert process. induction iterations as [|i iterations IH]; intros process; simpl;
    keeps_with ltac:(first [apply subprocess_run_keeps_fetch_calls|apply IH]).
Qed.

(** A call of [fetch_extension_data] is recorded once, however it ends. *)
Lemma fetch_extension_data_calls env uuid version w :
  fetch_calls (trace (fetch_extension_data env uuid version w).2)
  = (uuid, version) :: fetch_calls (trace w).
Proof.
  unfold fetch_extension_data. unfold bind at 1; cbn [emit].
  match goal with |- fetch_calls (trace (?m ?w1).2) = _ =>
    assert (Hk : keeps (λ w, fetch_calls (trace w)) m)
      by keeps_with ltac:(first [apply prefetch_loop_keeps_fetch_calls
                                |apply open_read_keeps_fetch_calls
                                |apply encode_ascii_keeps]);
    by rewrite (Hk w1) end.
Qed.

Lemma download_calls uuid env cache v w :
  fetch_calls (trace (download uuid env cache v w).2)
  = (uuid, Py.str_of_int v) :: fetch_calls (trace w).
Proof.
  unfold download. unfold bind at 1; simpl. unfold bind.
  match goal with |- context [fetch_extension_data env uuid ?s ?w1] =>
    pose proof (fetch_extension_data_calls env uuid s w1) as Hc;
    destruct (fetch_extension_data env uuid s w1) as [[info|e] w2] end; simpl in *; done.
Qed.

Lemma download_loop_calls uuid env versions cache w :
  ∃ fetched, fetched `prefix_of` versions
    ∧ fetch_calls (trace (for_each versions cache (download uuid env) w).2)
      = reverse ((λ v, (uuid, Py.str_of_int v)) <$> fetched) ++ fetch_calls (trace w)
    ∧ ∀ cache', (for_each versions cache (download uuid env) w).1 = Return cache' →
        fetched = versions.
Proof.
  revert cache w. induction versions as [|v versions IH]; intros cache w; simpl.
  - exists []. split_and!; done.
  - unfold bind. pose proof (download_calls uuid env cache v w) as Hc.
    destruct (download uuid env cache v w) as [[cache1|e] w1]; simpl in *.
    + destruct (IH cache1 w1) as (fetched & Hpre & Hcalls & Hall).
      exists (v :: fetched). split_and!.
      * by apply prefix_cons.
      * rewrite Hcalls, Hc. simpl. rewrite reverse_cons, <- app_assoc. done.
      * intros cache' Hr. f_equal. by eapply Hall.
    + exists [v]. split_and!; [apply prefix_cons, prefix_nil|rewrite Hc; reflexivity|by intros ?].
Qed.

Lemma fill_keeps {X} (f : World → X) cache acc item : keeps f (fill cache acc item).
Proof. unfold fill. keeps_auto. Qed.

Lemma generate_extension_versions_unfold env m uuid :
  generate_extension_versions env m uuid
  = bind (for_each
            (Py.sorted_by id
               (elements (list_to_set (Py.dict_values (select_versions m)) : gset Z)))
            ∅ (download uuid env))
         (λ cache, for_each (select_versions m) [] (fill cache)).
Proof. reflexivity. Qed.

(** C7, amended: one call of [generate_extension_versions], which is
    the processing of one record, calls [fetch_extension_data] at most
    once for each distinct version it has selected, also when several
    groups share the version, and for no other version; when it returns,
    it has called it for every one of them.  The cache is a variable of
    the call: nothing is kept from one record to the next. *)
Theorem generate_extension_versions_fetches_once env m uuid w :
  ∃ calls,
    fetch_calls (trace (generate_extension_versions env m uuid w).2)
      = calls ++ fetch_calls (trace w)
    ∧ NoDup calls
    ∧ (∀ call, call ∈ calls →
         ∃ v, v ∈ Py.dict_values (select_versions m) ∧ call = (uuid, Py.str_of_int v))
    ∧ (∀ full, (generate_extension_versions env m uuid w).1 = Return full →
         ∀ v, v ∈ Py.dict_values (select_versions m) → (uuid, Py.str_of_int v) ∈ calls).
Proof.
  rewrite generate_extension_versions_unfold.
  set (versions := Py.sorted_by id _).
  assert (Hperm : versions ≡ₚ elements (list_to_set (Py.dict_values (select_versions m)) : gset Z))
    by apply sorted_by_perm.
  assert (Hnd : NoDup versions) by (rewrite Hperm; apply NoDup_elements).
  assert (Hin : ∀ v, v ∈ versions ↔ v ∈ Py.dict_values (select_versions m)).
  { intros v. by rewrite Hperm, elem_of_elements, elem_of_list_to_set. }
  destruct (download_loop_calls uuid env versions ∅ w) as (fetched & Hpre & Hcalls & Hall).
  exists (reverse ((λ v, (uuid, Py.str_of_int v)) <$> fetched)).
  assert (Hsub : ∀ v, v ∈ fetched → v ∈ versions).
  { intros v Hv. destruct Hpre as [rest ->]. apply elem_of_app. by left. }
  split_and!.
  - unfold bind.
    destruct (for_each versions ∅ (download uuid env) w) as [[cache|e] w1]; simpl in *; [|done].
    rewrite <- Hcalls.
    exact (keeps_for_each (λ w, fetch_calls (trace w)) _ _ _
             (λ b a, fill_keeps _ cache b a) w1).
  - rewrite reverse_Permutation. apply NoDup_fmap_2.
    + intros v1 v2 [= Heq]. by apply (inj pretty) in Heq.
    + destruct Hpre as [rest ->]. by apply NoDup_app in Hnd as [? _].
  - intros call [v [-> Hv]]%elem_of_reverse%list_elem_of_fmap.
    exists v. split; [by apply Hin, Hsub|done].
  - intros full Hret v Hv. apply elem_of_reverse, list_elem_of_fmap. exists v. split; [done|].
    unfold bind in Hret.
    destruct (for_each versions ∅ (download uuid env) w) as [[cache|e] w1] eqn:Hloop;
      simpl in *; [|done].
    rewrite (Hall cache eq_refl). by apply Hin.
Qed.

(** ** Paginated fetcher *)

Lemma urlopen_run env url w :
  urllib_request_urlopen env url w
  = (Return (urlopen env (length (urlopen_calls (trace w))) url),
     {| trace := EvUrlopen url :: trace w;
        package_name_registry := package_name_registry w |}).
Proof. reflexivity. Qed.

(** The attempts of [request], from attempt [a] on with [n] attempts left:
    [c] calls are made, all for [url]; every call but the last fails with
    a code that is retried, and the last call decides the result. *)
Lemma request_loop_spec env url retries retry_codes n a w :
  (a + S n = retries + 1)%nat →
  ∃ c w',
    request_loop env (seq a (S n)) url retries retry_codes w
    = (match urlopen env (length (urlopen_calls (trace w)) + c) url with
       | HttpOk response => Return response
       | HttpFail code => Raise (HTTPError code)
       end, w')
    ∧ (c ≤ n)%nat
    ∧ urlopen_calls (trace w') = replicate (S c) url ++ urlopen_calls (trace w)
    ∧ package_name_registry w' = package_name_registry w
    ∧ (∀ j, (j < c)%nat →
         ∃ code, urlopen env (length (urlopen_calls (trace w)) + j) url = HttpFail code
                 ∧ code ∈ retry_codes)
    ∧ (∀ code, urlopen env (length (urlopen_calls (trace w)) + c) url = HttpFail code →
         code ∉ retry_codes ∨ (a + c = retries)%nat).
Proof.
  revert a w. induction n as [|n IH]; intros a w Ha.
  - (* the last attempt *)
    exists 0%nat. simpl. unfold bind. rewrite urlopen_run, Nat.add_0_r.
    destruct (urlopen env _ url) as [response|code] eqn:Hreply.
    + eexists. split_and!; [done|lia|done|done|intros; lia|done].
    + rewrite (bool_decide_eq_false_2 (a < retries)%nat) by lia. rewrite andb_false_r.
      eexists. split_and!; [done|lia|done|done|intros; lia|]. intros ? _. right. lia.
  - change (seq a (S (S n))) with (a :: seq (S a) (S n)).
    cbn [request_loop]. unfold bind at 1. rewrite urlopen_run.
    destruct (urlopen env _ url) as [response|code] eqn:Hreply.
    + exists 0%nat. rewrite Nat.add_0_r, Hreply.
      eexists. split_and!; [done|lia|done|done|intros; lia|done].
    + destruct (decide (code ∈ retry_codes)) as [Hin|Hout].
      * rewrite (bool_decide_eq_true_2 _ Hin), (bool_decide_eq_true_2 (a < retries)%nat) by lia.
        cbn [andb]. unfold bind at 1; cbn [logging emit].
        edestruct (IH (S a)) as (c & w' & Hrun & Hc & Hcalls & Hreg & Hbefore & Hlast);
          [lia|]. rewrite Hrun. cbn [trace urlopen_calls omap] in *.
        simpl in Hrun, Hcalls, Hbefore, Hlast |- *.
        exists (S c), w'. rewrite <- Nat.add_succ_comm.
        split_and!; [done|lia| |done| |].
        -- rewrite Hcalls. simpl. f_equal. clear. induction c; simpl; [done|]. by f_equal.
        -- intros [|j] Hj.
           ++ exists code. by rewrite Nat.add_0_r.
           ++ rewrite <- Nat.add_succ_comm. apply Hbefore. lia.
        -- intros code' Hcode'. destruct (Hlast code' Hcode'); [by left|right; lia].
      * rewrite (bool_decide_eq_false_2 _ Hout). cbn [andb].
        exists 0%nat. rewrite Nat.add_0_r, Hreply.
        eexists. split_and!; [done|lia|done|done|intros; lia|].
        intros code' [= <-]. by left.
Qed.

(** C3, amended: [request] asks for the same URL at every attempt and
    makes at most [retries + 1] attempts; every attempt before the last
    has failed with one of the [retry_codes]; the last attempt decides the
    result, and a failure is raised only when its code is none of the
    [retry_codes] (then at once, without a retry) or when the [retries]
    are exhausted.  The fetcher asks with 5 retries for the codes 500,
    502, 503 and 504. *)
Theorem request_retries_listed_codes env url retries retry_codes w :
  default_retries = 5%nat ∧ default_retry_codes = [500; 502; 503; 504] ∧
  ∃ attempts,
    (1 ≤ attempts ≤ retries + 1)%nat
    ∧ urlopen_calls (trace (request env url retries retry_codes w).2)
      = replicate attempts url ++ urlopen_calls (trace w)
    ∧ (∀ j, (j < attempts - 1)%nat →
         ∃ code, urlopen env (length (urlopen_calls (trace w)) + j) url = HttpFail code
                 ∧ code ∈ retry_codes)
    ∧ match urlopen env (length (urlopen_calls (trace w)) + (attempts - 1)) url with
      | HttpOk response => (request env url retries retry_codes w).1 = Return response
      | HttpFail code =>
          (request env url retries retry_codes w).1 = Raise (HTTPError code)
          ∧ (code ∉ retry_codes ∨ attempts = (retries + 1)%nat)
      end.
Proof.
  split; [done|]. split; [done|].
  unfold request. rewrite Nat.add_1_r.
  destruct (request_loop_spec env url retries retry_codes retries 0 w)
    as (c & w' & Hrun & Hc & Hcalls & _ & Hbefore & Hlast); [lia|].
  exists (S c). rewrite Hrun. simpl. rewrite Nat.sub_0_r.
  split_and!; [lia|lia|done|done|].
  destruct (urlopen env _ url) as [response|code]; [done|].
  split; [done|]. destruct (Hlast code eq_refl); [by left|right; lia].
Qed.

Lemma not_retried_404 : 404 ∉ default_retry_codes.
Proof. apply (bool_decide_unpack _). by vm_compute. Qed.

(** After failures that are retried, [request] ends with the reply that
    is handed on, and has asked once for each failure and once more. *)
Lemma request_after_retries env url w fails reply :
  retried fails →
  (∀ j code, fails !! j = Some code →
     urlopen env (length (urlopen_calls (trace w)) + j) url = HttpFail code) →
  urlopen env (length (urlopen_calls (trace w)) + length fails) url = reply →
  handed_on fails reply →
  ∃ w', request env url default_retries default_retry_codes w
        = (match reply with
           | HttpOk response => Return response
           | HttpFail code => Raise (HTTPError code)
           end, w')
    ∧ urlopen_calls (trace w') = replicate (S (length fails)) url ++ urlopen_calls (trace w)
    ∧ package_name_registry w' = package_name_registry w.
Proof.
  intros [Hcodes Hlen] Hfails Hreply Hhanded. unfold request. rewrite Nat.add_1_r.
  destruct (request_loop_spec env url default_retries default_retry_codes default_retries 0 w)
    as (c & w' & Hrun & Hc & Hcalls & Hreg & Hbefore & Hlast); [lia|].
  assert (c = length fails) as ->.
  { destruct (Nat.lt_trichotomy c (length fails)) as [Hlt|[->|Hgt]]; [|done|].
    - destruct (lookup_lt_is_Some_2 fails c Hlt) as [code Hcode].
      destruct (Hlast code (Hfails _ _ Hcode)) as [Hout|Hexhausted]; [|simpl in *; lia].
      exfalso. apply Hout. eapply Forall_lookup_1 in Hcodes; [|exact Hcode]. done.
    - destruct (Hbefore _ Hgt) as (code & Hcode & Hin). rewrite Hreply in Hcode. rewrite Hcode in Hhanded.
      simpl in Hhanded. destruct Hhanded as [Hout|Hexhausted]; [done|lia]. }
  exists w'. rewrite Hrun, Hreply. done.
Qed.

Lemma scrape_loop_halts env (pages : list (list Z * list RawExtension)) last_fails final :
  ∀ fuel page extensions w,
    Forall (λ p, retried p.1 ∧ (25 ≤ length p.2)%nat) pages →
    retried last_fails →
    answers env (length (urlopen_calls (trace w))) (page + 1)
      (scrape_schedule pages last_fails final) →
    ends_scrape final →
    (length pages < fuel)%nat →
    ∃ w', scrape_loop env fuel page extensions w
          = (Return (Some (extensions ++ concat pages.*2 ++ last_items final)), w')
      ∧ urlopen_calls (trace w')
        = reverse (requested (page + 1) (scrape_schedule pages last_fails final))
          ++ urlopen_calls (trace w).
Proof.
  induction pages as [|[fails data] pages IH];
    intros fuel page extensions w Hpages Hlast Hanswers Hend Hfuel.
  - destruct fuel as [|fuel]; [simpl in Hfuel; lia|].
    destruct Hanswers as (Hfails & Hreply & _).
    cbn [scrape_loop]. unfold bind at 1. cbn [logging emit].
    set (w0 := {| trace := _ :: trace w; package_name_registry := _ |}).
    assert (H0 : urlopen_calls (trace w0) = urlopen_calls (trace w)) by reflexivity.
    unfold bind at 1, try_except, bind at 1.
    destruct (request_after_retries env (page_url (page + 1)) w0 last_fails final)
      as (w1 & Hrun & Hcalls & _); [done|exact Hfails|exact Hreply| |].
    { destruct final as [data|code]; simpl in *; [done|]. subst code.
      left. apply not_retried_404. }
    rewrite H0 in Hcalls. rewrite Hrun.
    assert (Hreqs : urlopen_calls (trace w1)
                    = reverse (requested (page + 1) (scrape_schedule [] last_fails final))
                      ++ urlopen_calls (trace w)).
    { rewrite Hcalls. cbn [scrape_schedule fmap list_fmap app requested].
      by rewrite app_nil_r, reverse_replicate. }
    destruct final as [data|code]; simpl in Hend.
    + apply Nat.ltb_lt in Hend. rewrite Hend. unfold bind at 1; cbn [logging emit ret fst snd].
      eexists. split; [reflexivity|]. exact Hreqs.
    + subst code. cbn [Z.eqb Pos.eqb ret fst snd].
      eexists. split; [by rewrite app_nil_r|exact Hreqs].
  - destruct fuel as [|fuel]; [simpl in Hfuel; lia|].
    apply Forall_cons in Hpages as [[Hretried Hfull] Hpages].
    destruct Hanswers as (Hfails & Hreply & Hanswers).
    cbn [scrape_loop]. unfold bind at 1. cbn [logging emit].
    set (w0 := {| trace := _ :: trace w; package_name_registry := _ |}).
    assert (H0 : urlopen_calls (trace w0) = urlopen_calls (trace w)) by reflexivity.
    unfold bind at 1, try_except, bind at 1.
    destruct (request_after_retries env (page_url (page + 1)) w0 fails (HttpOk data))
      as (w1 & Hrun & Hcalls & _); [done|exact Hfails|exact Hreply|done|].
    rewrite H0 in Hcalls.
    rewrite Hrun.
    simpl in Hfull. apply Nat.ltb_ge in Hfull. rewrite Hfull. cbn [ret snd fst].
    destruct (IH fuel (page + 1) (extensions ++ data) w1) as (w' & Hloop & Hreqs);
      [done|done| |done|simpl in Hfuel; lia|].
    { rewrite Hcalls. rewrite length_app, length_replicate.
      replace (S (length fails) + length (urlopen_calls (trace w)))%nat
        with (length (urlopen_calls (trace w)) + length fails + 1)%nat by lia.
      exact Hanswers. }
    rewrite Hloop. eexists. split.
    + do 3 f_equal. simpl. by rewrite <- !app_assoc.
    + rewrite Hreqs, Hcalls.
      change (scrape_schedule ((fails, data) :: pages) last_fails final)
        with ((fails, HttpOk data) :: scrape_schedule pages last_fails final).
      cbn [requested]. by rewrite reverse_app, reverse_replicate, <- app_assoc.
Qed.

(** C5: let the server answer full pages and then a page with fewer than
    25 items or a 404, each after at most five failures that are retried.
    Then [scrape_extensions_index] asks for each page in turn, again after
    each of these failures, and for no page after the last; it returns
    the items of all pages, those of the short last page included and none
    for a 404, sorted by their [pk]. *)
Theorem scrape_extensions_index_halts env (pages : list (list Z * list RawExtension))
    (last_fails : list Z) (final : HttpReply) fuel w :
  Forall (λ p, retried p.1 ∧ (25 ≤ length p.2)%nat) pages →
  retried last_fails →
  answers env (length (urlopen_calls (trace w))) 1 (scrape_schedule pages last_fails final) →
  ends_scrape final →
  (length pages < fuel)%nat →
  ∃ w', scrape_extensions_index env fuel w
        = (Return (Some (Py.sorted_by raw_pk (concat pages.*2 ++ last_items final))), w')
    ∧ urlopen_calls (trace w')
      = reverse (requested 1 (scrape_schedule pages last_fails final))
        ++ urlopen_calls (trace w)
    ∧ StronglySorted (λ a b, raw_pk a ≤ raw_pk b)
        (Py.sorted_by raw_pk (concat pages.*2 ++ last_items final))
    ∧ Py.sorted_by raw_pk (concat pages.*2 ++ last_items final)
      ≡ₚ concat pages.*2 ++ last_items final.
Proof.
  intros Hpages Hlast Hanswers Hend Hfuel.
  destruct (scrape_loop_halts env pages last_fails final fuel 0 [] w)
    as (w' & Hrun & Hcalls); try done.
  exists w'. split_and!; [|done|apply sorted_by_sorted|apply sorted_by_perm].
  unfold scrape_extensions_index, bind. by rewrite Hrun.
Qed.

(** *** Examples of runs of the fetcher *)

Lemma scrape_extensions_index_halts_witness :
  ∃ w', scrape_extensions_index two_page_server 2 initial_world
        = (Return (Some (sample_extension <$> seqZ 0 26)), w')
    ∧ urlopen_calls (trace w') = [page_url 2; page_url 1; page_url 1].
Proof.
  destruct (scrape_extensions_index_halts two_page_server
              [([503], sample_extension <$> reverse (seqZ 1 25))] []
              (HttpOk [sample_extension 0]) 2 initial_world) as (w' & Hrun & Hcalls & _).
  - repeat constructor.
  - by repeat constructor.
  - cbn [scrape_schedule fmap list_fmap app answers fst snd]. repeat split.
    all: intros [|j] code Hj; simplify_eq/=; reflexivity.
  - simpl. lia.
  - simpl. lia.
  - exists w'. split; [|exact Hcalls].
    rewrite Hrun. by vm_compute.
Defined.

(** C3, as stated, fails: a 403, which is no 404, is raised after a single
    request, with all five retries left. *)
Lemma request_403_not_retried :
  (request forbidden_server (page_url 1) default_retries default_retry_codes initial_world).1
    = Raise (HTTPError 403)
  ∧ urlopen_calls
      (trace (request forbidden_server (page_url 1) default_retries default_retry_codes
                initial_world).2) = [page_url 1]
  ∧ (scrape_extensions_index forbidden_server 1 initial_world).1 = Raise (HTTPError 403)
  ∧ 403 ≠ 404.
Proof. split_and!; [by vm_compute..|done]. Qed.

(** *** Examples of runs of the transformer *)

Lemma process_extension_skip_keeps_registry_witness :
  ∃ w', process_extension forbidden_server (sample_extension 1) initial_world
        = (Return None, w')
    ∧ package_name_registry w' = package_name_registry initial_world.
Proof.
  apply (process_extension_skip_keeps_registry forbidden_server (sample_extension 1)
           initial_world).
  by left.
Defined.

Lemma registry_updated_once_per_group_witness :
  ∃ e w', process_extension ready_store battery_time initial_world = (Return (Some e), w')
    ∧ uuid e = raw_uuid battery_time
    ∧ ∀ shell_version,
        shell_version ∈ Py.dict_keys (shell_version_map e) →
        ∃ names, package_name_registry initial_world !! shell_version = Some names
          ∧ package_name_registry w' !! shell_version
            = Some (<[pname e := default [] (names !! pname e) ++ [uuid e]]> names).
Proof.
  assert (Hrun : ∃ e w', process_extension ready_store battery_time initial_world
                         = (Return (Some e), w')) by (vm_compute; eauto).
  destruct Hrun as (e & w' & Hrun). exists e, w'. split; [exact Hrun|].
  destruct registry_updated_once_per_group as [Hupdate _].
  destruct (Hupdate _ _ _ _ _ Hrun) as (Huuid & _ & Hgroups).
  split; [exact Huuid|]. intros shell_version. apply Hgroups.
Defined.

(** ** Content resolver *)

Lemma subprocess_run_run env url w :
  subprocess_run_nix_prefetch_url env url w
  = (Return (nix_prefetch_url env (length (prefetch_calls (trace w))) url),
     {| trace := EvPrefetch url :: trace w;
        package_name_registry := package_name_registry w |}).
Proof. reflexivity. Qed.

Lemma bind_Return {A B} (m : M A) (k : A → M B) w a w1 :
  m w = (Return a, w1) → bind m k w = k a w1.
Proof. unfold bind. by intros ->. Qed.

(** The retry loop: [S c] runs are made, all for [url]; every run but the
    last has failed, and a last run that has failed is the last
    iteration. *)
Lemma prefetch_loop_spec env url iterations process w :
  iterations ≠ [] →
  ∃ c w',
    prefetch_loop env iterations url process w
    = (Return (Some (nix_prefetch_url env (length (prefetch_calls (trace w)) + c) url)), w')
    ∧ (c < length iterations)%nat
    ∧ prefetch_calls (trace w') = replicate (S c) url ++ prefetch_calls (trace w)
    ∧ read_calls (trace w') = read_calls (trace w)
    ∧ (∀ j, (j < c)%nat →
         returncode (nix_prefetch_url env (length (prefetch_calls (trace w)) + j) url) ≠ 0)
    ∧ (returncode (nix_prefetch_url env (length (prefetch_calls (trace w)) + c) url) ≠ 0 →
         S c = length iterations).
Proof.
  revert process w. induction iterations as [|i iterations IH]; intros process w Hne; [done|].
  cbn [prefetch_loop]. unfold bind at 1. rewrite subprocess_run_run.
  destruct (returncode _ =? 0) eqn:Hrc.
  - exists 0%nat. rewrite Nat.add_0_r. eexists.
    split_and!; [done|simpl; lia|done|done|intros; lia|]. intros Hfail. lia.
  - unfold bind at 1; cbn [logging emit]. unfold bind at 1; cbn [logging emit].
    unfold bind at 1; cbn [logging emit].
    destruct iterations as [|i' iterations].
    + exists 0%nat. rewrite Nat.add_0_r. eexists.
      split_and!; [done|simpl; lia|done|done|intros; lia|done].
    + match goal with |- context [prefetch_loop env _ url ?p ?w1] =>
        destruct (IH p w1) as (c & w' & Hrun & Hc & Hcalls & Hreads & Hbefore & Hlast);
          [done|] end.
      simpl in Hrun, Hcalls, Hreads, Hbefore, Hlast.
      exists (S c), w'. rewrite <- Nat.add_succ_comm.
      split_and!; [done|simpl in *; lia| |done| |].
      * rewrite Hcalls. simpl. f_equal. clear. induction c; simpl; [done|]. by f_equal.
      * intros [|j] Hj; [rewrite Nat.add_0_r; lia|].
        rewrite <- Nat.add_succ_comm. apply Hbefore. lia.
      * intros Hfail. specialize (Hlast Hfail). simpl in *. lia.
Qed.

Lemma fetch_extension_data_unfold env uuid version :
  fetch_extension_data env uuid version
  = (emit (EvFetchCall uuid version);;
     process <- prefetch_loop env (seq 0 10) (extension_url uuid version) None;;
     match process with
     | None => raise UnboundLocalError
     | Some process =>
         if negb (returncode process =? 0) then raise retried_10_times
         else read_metadata env process
     end).
Proof. reflexivity. Qed.

Lemma open_read_run env path w :
  open_read env path w
  = (match read_text env (length (read_calls (trace w))) path with
     | Some text => Return text
     | None => Raise (OSError path)
     end,
     {| trace := EvRead path :: trace w; package_name_registry := package_name_registry w |}).
Proof. unfold open_read, bind; simpl. by destruct (read_text _ _ _). Qed.

Lemma read_metadata_prefetch_calls env process :
  keeps (λ w, prefetch_calls (trace w)) (read_metadata env process).
Proof.
  unfold read_metadata. keeps_with ltac:(apply encode_ascii_keeps).
  intros w. rewrite open_read_run. done.
Qed.

Lemma read_metadata_no_exception env process w msg :
  (read_metadata env process w).1 ≠ Raise (Exception msg).
Proof.
  unfold read_metadata, index, bind.
  destruct (Py.splitlines (stdout process) !! 0%nat); [|done]. simpl.
  destruct (Py.splitlines (stdout process) !! 1%nat); [|done]. simpl.
  rewrite open_read_run. destruct (read_text _ _ _); [|done].
  unfold encode_ascii. by destruct (forallb _ _).
Qed.

Lemma read_metadata_run env process w hash_line path_line rest text :
  Py.splitlines (stdout process) = hash_line :: path_line :: rest →
  read_text env (length (read_calls (trace w))) (Py.strip path_line +:+ "/metadata.json")
    = Some text →
  (read_metadata env process w).1
  = if is_ascii_text text
    then Return (Py.strip hash_line, b64encode (list_ascii_of_string text))
    else Raise UnicodeEncodeError.
Proof.
  intros Hlines Hread. unfold read_metadata, index, bind. rewrite Hlines. simpl.
  rewrite open_read_run, Hread. unfold encode_ascii, is_ascii_text.
  by destruct (forallb _ _).
Qed.

(** A run of [fetch_extension_data]: the loop makes [S c] runs of the
    tool, and the last of them decides how the function goes on. *)
Lemma fetch_extension_data_run env uuid version w :
  ∃ c w',
    fetch_extension_data env uuid version w
    = (if negb (returncode (nix_prefetch_url env (length (prefetch_calls (trace w)) + c)
                              (extension_url uuid version)) =? 0)
       then raise retried_10_times
       else read_metadata env (nix_prefetch_url env (length (prefetch_calls (trace w)) + c)
                                 (extension_url uuid version))) w'
    ∧ (c < 10)%nat
    ∧ prefetch_calls (trace w') = replicate (S c) (extension_url uuid version)
                                  ++ prefetch_calls (trace w)
    ∧ read_calls (trace w') = read_calls (trace w)
    ∧ (∀ j, (j < c)%nat →
         returncode (nix_prefetch_url env (length (prefetch_calls (trace w)) + j)
                       (extension_url uuid version)) ≠ 0)
    ∧ (returncode (nix_prefetch_url env (length (prefetch_calls (trace w)) + c)
                     (extension_url uuid version)) ≠ 0 → S c = 10%nat).
Proof.
  rewrite fetch_extension_data_unfold. unfold bind at 1; cbn [emit].
  set (w1 := {| trace := EvFetchCall uuid version :: trace w;
                package_name_registry := package_name_registry w |}).
  assert (Hp : prefetch_calls (trace w1) = prefetch_calls (trace w)) by reflexivity.
  assert (Hr : read_calls (trace w1) = read_calls (trace w)) by reflexivity.
  destruct (prefetch_loop_spec env (extension_url uuid version) (seq 0 10) None w1)
    as (c & w' & Hrun & Hc & Hcalls & Hreads & Hbefore & Hlast); [done|].
  rewrite length_seq in Hc, Hlast. rewrite Hp in Hrun, Hcalls, Hbefore, Hlast.
  rewrite Hr in Hreads.
  exists c, w'. by rewrite (bind_Return _ _ _ _ _ Hrun).
Qed.

(** C6, amended: [fetch_extension_data] runs the hashing tool at most 10
    times, always for the same URL, and again only after a non-zero exit
    status.  It raises the exception of the exhausted retries exactly when
    the last of these runs has failed, which is then the tenth.  When a
    run succeeds, no further run is made and this exception is not
    raised; if moreover the output of the tool has its two lines and the
    metadata file can be read and is ASCII text, the hash and the encoded
    metadata are returned. *)
Theorem fetch_extension_data_retries env uuid version w :
  ∃ runs,
    (1 ≤ runs ≤ 10)%nat
    ∧ prefetch_calls (trace (fetch_extension_data env uuid version w).2)
      = replicate runs (extension_url uuid version) ++ prefetch_calls (trace w)
    ∧ (∀ j, (j < runs - 1)%nat →
         returncode (nix_prefetch_url env (length (prefetch_calls (trace w)) + j)
                       (extension_url uuid version)) ≠ 0)
    ∧ (returncode (nix_prefetch_url env (length (prefetch_calls (trace w)) + (runs - 1))
                     (extension_url uuid version)) ≠ 0
       ↔ (fetch_extension_data env uuid version w).1 = Raise retried_10_times)
    ∧ ((fetch_extension_data env uuid version w).1 = Raise retried_10_times → runs = 10%nat)
    ∧ ∀ hash_line path_line rest text,
        returncode (nix_prefetch_url env (length (prefetch_calls (trace w)) + (runs - 1))
                      (extension_url uuid version)) = 0 →
        Py.splitlines
          (stdout (nix_prefetch_url env (length (prefetch_calls (trace w)) + (runs - 1))
                     (extension_url uuid version)))
          = hash_line :: path_line :: rest →
        read_text env (length (read_calls (trace w))) (Py.strip path_line +:+ "/metadata.json")
          = Some text →
        is_ascii_text text = true →
        (fetch_extension_data env uuid version w).1
        = Return (Py.strip hash_line, b64encode (list_ascii_of_string text)).
Proof.
  destruct (fetch_extension_data_run env uuid version w)
    as (c & w' & Hfetch & Hc & Hcalls & Hreads & Hbefore & Hlast).
  exists (S c). rewrite Hfetch. replace (S c - 1)%nat with c by lia.
  set (process := nix_prefetch_url env _ _) in *.
  destruct (returncode process =? 0) eqn:Hrc; cbn [negb].
  - apply Z.eqb_eq in Hrc.
    pose proof (read_metadata_prefetch_calls env process w') as Hkeeps.
    pose proof (read_metadata_no_exception env process w') as Hno.
    split_and!; [lia|lia|by rewrite Hkeeps|done| | |].
    + split; [done|]. intros Hraise. by apply Hno in Hraise.
    + intros Hraise. by apply Hno in Hraise.
    + intros hash_line path_line rest text _ Hlines Hread Hascii.
      rewrite (read_metadata_run _ _ _ _ _ _ text Hlines) by (by rewrite Hreads).
      by rewrite Hascii.
  - apply Z.eqb_neq in Hrc. specialize (Hlast Hrc).
    split_and!; [lia|lia|done|done|done|intros _; lia|]. intros; done.
Qed.

(** *** Base64 *)

Lemma b64_index_char (n : N) : (n < 64)%N → b64_index (b64_char n) = Some n.
Proof.
  intros Hn. rewrite <- (N2Nat.id n).
  assert (Hi : (N.to_nat n < 64)%nat) by lia.
  generalize dependent (N.to_nat n). clear. intros i Hi.
  do 64 (destruct i as [|i]; [reflexivity|]). lia.
Qed.

Lemma b64_index_pad : b64_index "=" = None.
Proof. reflexivity. Qed.

Lemma N_of_ascii_bound (a : ascii) : (N_of_ascii a < 256)%N.
Proof. destruct a as [[] [] [] [] [] [] [] []]; by vm_compute. Qed.

Ltac div_mod_lia := Z.to_euclidean_division_equations; lia.

Lemma b64_group3 (a b c : N) :
  (a < 256 → b < 256 → c < 256 →
   let n := a * 65536 + b * 256 + c in
   let m := ((n / 262144 * 64 + n / 4096 mod 64) * 64 + n / 64 mod 64) * 64 + n mod 64 in
   n / 262144 < 64 ∧ n / 4096 mod 64 < 64 ∧ n / 64 mod 64 < 64 ∧ n mod 64 < 64
   ∧ m / 65536 = a ∧ m / 256 mod 256 = b ∧ m mod 256 = c)%N.
Proof.
  intros Ha Hb Hc n m.
  assert (m = n) as -> by (subst m n; zify; div_mod_lia).
  subst n. zify. div_mod_lia.
Qed.

Lemma b64_group2 (a b : N) :
  (a < 256 → b < 256 →
   let n := a * 256 + b in
   let m := (n / 1024 * 64 + n / 16 mod 64) * 64 + n mod 16 * 4 in
   n / 1024 < 64 ∧ n / 16 mod 64 < 64 ∧ n mod 16 * 4 < 64
   ∧ m / 1024 = a ∧ m / 4 mod 256 = b)%N.
Proof.
  intros Ha Hb n m.
  assert (m = n * 4)%N as -> by (subst m n; zify; div_mod_lia).
  subst n. zify. div_mod_lia.
Qed.

Lemma b64_group1 (a : N) :
  (a < 256 →
   a / 4 < 64 ∧ a mod 4 * 16 < 64 ∧ (a / 4 * 64 + a mod 4 * 16) / 16 = a)%N.
Proof. intros Ha. zify. div_mod_lia. Qed.

Lemma list_ind3 {A} (P : list A → Prop) :
  P [] → (∀ a, P [a]) → (∀ a b, P [a; b]) →
  (∀ a b c l, P l → P (a :: b :: c :: l)) →
  ∀ l, P l.
Proof.
  intros H0 H1 H2 H3 l.
  assert (H : P l ∧ (∀ a, P (a :: l)) ∧ ∀ a b, P (a :: b :: l)).
  { induction l as [|x l (IH0 & IH1 & IH2)]; [by split_and!|].
    split_and!; [apply IH1|intros; apply IH2|intros; by apply H3]. }
  apply H.
Qed.

(** Decoding gives back the bytes that were encoded. *)
Lemma b64decode_b64encode (bs : list ascii) : b64decode (b64encode bs) = Some bs.
Proof.
  induction bs as [|a|a b|a b c bs IH] using list_ind3.
  - reflexivity.
  - destruct (b64_group1 (N_of_ascii a) (N_of_ascii_bound a)) as (H1 & H2 & Ha).
    cbn [b64encode b64decode]. rewrite !b64_index_char by done.
    cbn [mbind option_bind]. rewrite b64_index_pad. cbn [is_pad Ascii.eqb andb].
    simpl. by rewrite Ha, ascii_N_embedding.
  - destruct (b64_group2 (N_of_ascii a) (N_of_ascii b) (N_of_ascii_bound a)
                (N_of_ascii_bound b)) as (H1 & H2 & H3 & Ha & Hb).
    cbn [b64encode b64decode]. rewrite !b64_index_char by done.
    cbn [mbind option_bind]. rewrite b64_index_pad. simpl.
    by rewrite Ha, Hb, !ascii_N_embedding.
  - destruct (b64_group3 (N_of_ascii a) (N_of_ascii b) (N_of_ascii c) (N_of_ascii_bound a)
                (N_of_ascii_bound b) (N_of_ascii_bound c)) as (H1 & H2 & H3 & H4 & Ha & Hb & Hc).
    cbn [b64encode b64decode]. rewrite !b64_index_char by done.
    cbn [mbind option_bind]. rewrite IH. cbn [mbind option_bind].
    by rewrite Ha, Hb, Hc, !ascii_N_embedding.
Qed.

Lemma read_metadata_reads env process w hash_line path_line rest :
  Py.splitlines (stdout process) = hash_line :: path_line :: rest →
  read_calls (trace (read_metadata env process w).2)
  = (Py.strip path_line +:+ "/metadata.json") :: read_calls (trace w).
Proof.
  intros Hlines. unfold read_metadata, index, bind. rewrite Hlines. simpl.
  rewrite open_read_run. destruct (read_text _ _ _); [|done].
  unfold encode_ascii. by destruct (forallb _ _).
Qed.

(** C8, amended: when a run of the hashing tool succeeds, its output has
    its two lines and the metadata file of the unpacked archive can be
    read, [fetch_extension_data] reads that one file; if its text is
    ASCII, the result is the hash with the Base64 encoding of the text,
    from which the text can be decoded again; if the text has a character
    that is not ASCII, the result is a [UnicodeEncodeError]. *)
Theorem fetch_extension_data_metadata env uuid version w k hash_line path_line rest text :
  (k < 10)%nat →
  (∀ j, (j < k)%nat →
     returncode (nix_prefetch_url env (length (prefetch_calls (trace w)) + j)
                   (extension_url uuid version)) ≠ 0) →
  returncode (nix_prefetch_url env (length (prefetch_calls (trace w)) + k)
                (extension_url uuid version)) = 0 →
  Py.splitlines (stdout (nix_prefetch_url env (length (prefetch_calls (trace w)) + k)
                           (extension_url uuid version)))
    = hash_line :: path_line :: rest →
  read_text env (length (read_calls (trace w))) (Py.strip path_line +:+ "/metadata.json")
    = Some text →
  read_calls (trace (fetch_extension_data env uuid version w).2)
    = (Py.strip path_line +:+ "/metadata.json") :: read_calls (trace w)
  ∧ (is_ascii_text text = true →
       (fetch_extension_data env uuid version w).1
       = Return (Py.strip hash_line, b64encode (list_ascii_of_string text))
       ∧ string_of_list_ascii
           <$> b64decode (b64encode (list_ascii_of_string text)) = Some text)
  ∧ (is_ascii_text text = false →
       (fetch_extension_data env uuid version w).1 = Raise UnicodeEncodeError).
Proof.
  intros Hk Hfailed Hok Hlines Hread.
  destruct (fetch_extension_data_run env uuid version w)
    as (c & w' & Hfetch & Hc & Hcalls & Hreads & Hbefore & Hlast).
  assert (c = k) as ->.
  { destruct (Nat.lt_trichotomy c k) as [Hlt|[->|Hgt]]; [|done|].
    - specialize (Hlast (Hfailed c Hlt)). lia.
    - by specialize (Hbefore k Hgt). }
  rewrite Hfetch, Hok. cbn [Z.eqb negb].
  rewrite (read_metadata_run _ _ _ _ _ _ text Hlines) by (by rewrite Hreads).
  split_and!.
  - rewrite (read_metadata_reads _ _ _ _ _ _ Hlines). by rewrite Hreads.
  - intros ->. split; [done|].
    by rewrite b64decode_b64encode; simpl; rewrite string_of_list_ascii_of_string.
  - by intros ->.
Qed.

(** *** Examples of runs of the content resolver *)

Lemma fetch_extension_data_metadata_witness :
  fetch_extension_data ready_store "batime@martin.zurowietz.de" "12" initial_world
  = (Return ("0abc", "e30="),
     {| trace := [EvRead "/nix/store/sample/metadata.json"; EvPrefetch sample_url;
                  EvFetchCall "batime@martin.zurowietz.de" "12"];
        package_name_registry := initial_registry |})
  ∧ read_calls
      (trace (fetch_extension_data ready_store "batime@martin.zurowietz.de" "12"
                initial_world).2) = ["/nix/store/sample/metadata.json"]
  ∧ (fetch_extension_data ready_store "batime@martin.zurowietz.de" "12" initial_world).1
    = Return ("0abc", "e30=").
Proof.
  split; [by vm_compute|].
  destruct (fetch_extension_data_metadata ready_store "batime@martin.zurowietz.de" "12"
              initial_world 0 "0abc" "/nix/store/sample" [] "{}") as (Hreads & Hascii & _).
  - lia.
  - intros j Hj. lia.
  - reflexivity.
  - by vm_compute.
  - reflexivity.
  - split; [exact Hreads|]. by destruct (Hascii eq_refl) as [-> _].
Defined.

Lemma fetch_extension_data_retries_witness :
  ∃ runs, (1 ≤ runs ≤ 10)%nat
    ∧ prefetch_calls
        (trace (fetch_extension_data forbidden_server "batime@martin.zurowietz.de" "12"
                  initial_world).2)
      = replicate runs sample_url
    ∧ (fetch_extension_data forbidden_server "batime@martin.zurowietz.de" "12"
         initial_world).1 = Raise retried_10_times.
Proof.
  destruct (fetch_extension_data_retries forbidden_server "batime@martin.zurowietz.de" "12"
              initial_world) as (runs & Hruns & Hcalls & _ & Hraise & _).
  exists runs. split; [exact Hruns|]. split.
  - rewrite Hcalls. apply app_nil_r.
  - apply Hraise. simpl. lia.
Defined.

(** C6, as stated, fails: the first run of the tool succeeds, so that no
    retry is exhausted, and the call raises an exception all the same,
    for an archive without metadata file as for one with metadata that is
    not ASCII. *)
Lemma fetch_extension_data_raises_after_success :
  returncode (nix_prefetch_url store_without_metadata 0 sample_url) = 0
  ∧ fetch_extension_data store_without_metadata "batime@martin.zurowietz.de" "12"
      initial_world
    = (Raise (OSError "/nix/store/sample/metadata.json"),
       {| trace := [EvRead "/nix/store/sample/metadata.json"; EvPrefetch sample_url;
                    EvFetchCall "batime@martin.zurowietz.de" "12"];
          package_name_registry := initial_registry |})
  ∧ returncode (nix_prefetch_url store_with_accent 0 sample_url) = 0
  ∧ (fetch_extension_data store_with_accent "batime@martin.zurowietz.de" "12"
       initial_world).1 = Raise UnicodeEncodeError
  ∧ prefetch_calls
      (trace (fetch_extension_data store_with_accent "batime@martin.zurowietz.de" "12"
                initial_world).2) = [sample_url].
Proof. split_and!; by vm_compute. Qed.

(** C8, as stated, fails: the text of a metadata file with an accented
    letter is not returned; the call raises a [UnicodeEncodeError]. *)
Lemma fetch_extension_data_rejects_non_ascii :
  read_text store_with_accent 0 "/nix/store/sample/metadata.json"
    = Some ("caf" +:+ String "233"%char EmptyString)
  ∧ (fetch_extension_data store_with_accent "batime@martin.zurowietz.de" "12"
       initial_world).1 = Raise UnicodeEncodeError
  ∧ ∀ hash encoded,
      (fetch_extension_data store_with_accent "batime@martin.zurowietz.de" "12"
         initial_world).1 ≠ Return (hash, encoded).
Proof.
  assert (Hraise : (fetch_extension_data store_with_accent "batime@martin.zurowietz.de" "12"
                      initial_world).1 = Raise UnicodeEncodeError) by (by vm_compute).
  split_and!; [done|done|]. intros hash encoded. by rewrite Hraise.
Qed.

(** ** The result of [generate_extension_versions] *)

Lemma dict_get_zip_with {I} (l : Py.odict ShellVersion ExtensionVersion) (infos : list I)
    (f : ShellVersion * ExtensionVersion → I → VersionInfo) shell_version :
  length infos = length l →
  match Py.dict_get shell_version l with
  | None => Py.dict_get shell_version (zip_with (λ item info, (item.1, f item info)) l infos)
            = None
  | Some v => ∃ info, Py.dict_get shell_version
                        (zip_with (λ item info, (item.1, f item info)) l infos)
                      = Some (f (shell_version, v) info)
  end.
Proof.
  revert infos. induction l as [|[k v] l IH]; intros [|info infos] Hlen; simpl in *;
    try done.
  destruct (decide (k = shell_version)) as [->|Hne]; [by exists info|].
  apply IH. lia.
Qed.

(** When [generate_extension_versions] returns, its result has a group
    exactly when the selection has it, with the selected version as the
    text of its ["version"]. *)
Lemma generate_extension_versions_lookup env m uuid w full w' shell_version :
  generate_extension_versions env m uuid w = (Return full, w') →
  match Py.dict_get shell_version (select_versions m) with
  | None => Py.dict_get shell_version full = None
  | Some v => ∃ info, Py.dict_get shell_version full = Some info
                      ∧ version info = Py.str_of_int v
  end.
Proof.
  intros (infos & Hlen & ->)%generate_extension_versions_Return.
  pose proof (dict_get_zip_with (select_versions m) infos
                (λ item info, {| version := Py.str_of_int item.2;
                                 sha256 := info.1; metadata := info.2 |})
                shell_version Hlen) as Hget.
  destruct (Py.dict_get shell_version (select_versions m)) as [v|]; [|done].
  destruct Hget as [info Hget]. eexists. split; [exact Hget|done].
Qed.

(** The version selector does what C2 says as long as the newest
    compatible version of the group is not 0: the group is in the result
    with the maximum of the versions whose label starts with the prefix
    of the group, and it is absent when no label starts with it. *)
Lemma version_selector_nonzero env m uuid w full w' shell_version version_prefix :
  generate_extension_versions env m uuid w = (Return full, w') →
  (shell_version, version_prefix) ∈ supported_versions →
  ((∀ shell_ver v, m !! shell_ver = Some v → Py.startswith shell_ver version_prefix = false) →
     Py.dict_get shell_version full = None)
  ∧ (∀ v, newest_compatible m version_prefix = Some v → v ≠ 0 →
       ∃ info, Py.dict_get shell_version full = Some info
               ∧ version info = Py.str_of_int v
               ∧ (∃ shell_ver, m !! shell_ver = Some v
                               ∧ Py.startswith shell_ver version_prefix = true)
               ∧ ∀ shell_ver v', m !! shell_ver = Some v' →
                   Py.startswith shell_ver version_prefix = true → v' ≤ v).
Proof.
  intros Hrun Hgroup.
  pose proof (generate_extension_versions_lookup _ _ _ _ _ _ shell_version Hrun) as Hget.
  assert (Hprefix : ∀ p, (shell_version, p) ∈ supported_versions → p = version_prefix).
  { intros p Hp. pose proof supported_versions_NoDup as Hnd.
    apply (dict_get_Some supported_versions) in Hp, Hgroup; [congruence|done..]. }
  split.
  - intros Hnone%newest_compatible_None.
    destruct (Py.dict_get shell_version (select_versions m)) as [v|] eqn:Hsel; [|done].
    apply select_versions_lookup in Hsel as (p & Hp & Hnew & _).
    apply Hprefix in Hp as ->. congruence.
  - intros v Hnew Hv.
    assert (Hsel : Py.dict_get shell_version (select_versions m) = Some v).
    { apply select_versions_lookup. by exists version_prefix. }
    rewrite Hsel in Hget. destruct Hget as (info & Hinfo & Hversion).
    apply newest_compatible_Some in Hnew as [Hlabel Hmax].
    exists info. by split_and!.
Qed.

(** C2 fails on the code for a group whose newest compatible version is
    0: the label 44 starts with the prefix of the group 44 and its version
    0 is the maximum, yet the group is not in the result, as [0] counts as
    false where the selection tests whether a maximum was found. *)
Theorem version_zero_group_omitted env uuid w :
  ("44", "44") ∈ supported_versions
  ∧ ({["44" := 0]} : gmap ShellVersion ExtensionVersion) !! "44" = Some 0
  ∧ Py.startswith "44" "44" = true
  ∧ newest_compatible {["44" := 0]} "44" = Some 0
  ∧ Py.dict_get "44" (select_versions {["44" := 0]}) = None
  ∧ generate_extension_versions env {["44" := 0]} uuid w = (Return [], w).
Proof.
  split_and!; [apply (bool_decide_unpack _); by vm_compute|by vm_compute..|].
  apply generate_extension_versions_nil. by vm_compute.
Qed.

(** With a version that is not 0 the same map gives the group. *)
Example version_selector_example :
  select_versions (<["45" := 3]> (<["44.1" := 12]> (<["44" := 10]> ∅)))
  = [("44", 12); ("45", 3)].
Proof. by vm_compute. Qed.

(** ** Serializer *)

(** The file written for extensions without such texts is read back as
    the list that was written. *)
Example write_extensions_json_example :
  loads (write_extensions_json [quoted_extension; quoted_extension])
  = Some (JArr [extension_to_json quoted_extension; extension_to_json quoted_extension]).
Proof. by vm_compute. Qed.

(** C1 fails on the code at two inputs.  For the empty list the loop
    never writes the opening bracket, and the file is a closing bracket
    alone.  For an extension with three closing braces in a text, the last
    replacement puts a raw line break into the JSON string.  Neither file
    is valid JSON, while the line [json.dumps] gives for the extension is,
    before the replacements; the script ends in the parse error of its own
    check. *)
Theorem extensions_json_invalid :
  write_extensions_json [] = "]" +:+ nl
  ∧ loads (write_extensions_json []) = None
  ∧ loads (dumps (JArr [extension_to_json braces_extension]))
    = Some (JArr [extension_to_json braces_extension])
  ∧ write_extensions_json [braces_extension]
    = "[ {" +:+ quoted "uuid" +:+ ": " +:+ quoted "braces@example.org" +:+ ", "
      +:+ quoted "name" +:+ ": " +:+ quoted "Braces" +:+ ", "
      +:+ quoted "pname" +:+ ": " +:+ quoted "braces" +:+ ", "
      +:+ quoted "description" +:+ ": " +:+ dq +:+ "Closes }" +:+ nl +:+ "  }} for you" +:+ dq
      +:+ ", " +:+ quoted "link" +:+ ": "
      +:+ quoted "https://extensions.gnome.org/extension/1/braces/" +:+ ", "
      +:+ quoted "shell_version_map" +:+ ": {" +:+ nl
      +:+ "    " +:+ quoted "46" +:+ ": {" +:+ quoted "version" +:+ ": " +:+ quoted "3" +:+ ", "
      +:+ quoted "sha256" +:+ ": " +:+ quoted "0abc" +:+ ", "
      +:+ quoted "metadata" +:+ ": " +:+ quoted "e30=" +:+ "}" +:+ nl
      +:+ "  }}" +:+ nl +:+ "]" +:+ nl
  ∧ loads (write_extensions_json [braces_extension]) = None
  ∧ (main ready_store 1 initial_world).1 = Raise JSONDecodeError.
Proof. split_and!; by vm_compute. Qed.

(** *** Examples of whole runs *)

(** One version that serves two groups is fetched once. *)
Example shared_version_fetched_once :
  generate_extension_versions ready_store
    (release_version <$> raw_shell_version_map battery_time) (raw_uuid battery_time)
    initial_world
  = (Return [("44", {| version := "12"; sha256 := "0abc"; metadata := "e30=" |});
             ("45", {| version := "12"; sha256 := "0abc"; metadata := "e30=" |})],
     {| trace := [EvRead "/nix/store/sample/metadata.json"; EvPrefetch sample_url;
                  EvFetchCall "batime@martin.zurowietz.de" "12";
                  EvLog DEBUG "[batime@martin.zurowietz.de] Downloading v12"];
        package_name_registry := initial_registry |}).
Proof. by vm_compute. Qed.

(** Two extensions with the short name foo for the same recent version
    give an entry of the report with both identifiers; one alone gives
    none, and so do two for a version that is not among the last three. *)
Example collisions_example :
  collisions
    (package_name_registry
       (process_all ready_store
          [foo_extension 1 "one@example.org" "46"; foo_extension 2 "two@example.org" "46"]
          initial_world).2)
  = {["foo" := ["one@example.org"; "two@example.org"]]}
  ∧ collisions
      (package_name_registry
         (process_all ready_store [foo_extension 1 "one@example.org" "46"] initial_world).2)
    = ∅
  ∧ collisions
      (package_name_registry
         (process_all ready_store
            [foo_extension 1 "one@example.org" "44"; foo_extension 2 "two@example.org" "44"]
            initial_world).2)
    = ∅.
Proof. split_and!; by vm_compute. Qed.

(** C7, as stated, fails over a run: the cache of downloads lives in one
    call of [generate_extension_versions], so that a record that the
    scrape has twice is downloaded for each of its occurrences, and the
    same identifier and version are fetched twice in one run. *)
Example cache_is_per_call :
  fetch_calls (trace (process_all ready_store [battery_time; battery_time] initial_world).2)
  = [("batime@martin.zurowietz.de", "12"); ("batime@martin.zurowietz.de", "12")].
Proof. by vm_compute. Qed.

(** * Further properties *)

(** ** Links *)

Lemma split_not_nil sep s : Py.split sep s ≠ [].
Proof.
  destruct s as [|c s]; simpl; [done|].
  destruct (Ascii.eqb c sep); [done|]. by destruct (Py.split sep s).
Qed.

Lemma split_length sep s : length (Py.split sep s) = S (count_char sep s).
Proof.
  induction s as [|c s IH]; simpl; [done|].
  destruct (Ascii.eqb c sep); simpl; [by rewrite IH|].
  destruct (Py.split sep s); simpl in *; [done|by rewrite IH].
Qed.

Lemma split_free sep s : count_char sep s = 0%nat → Py.split sep s = [s].
Proof.
  induction s as [|c s IH]; simpl; [done|].
  destruct (Ascii.eqb c sep); simpl; [done|]. intros Hs. by rewrite IH.
Qed.

Lemma split_app sep a b :
  count_char sep a = 0%nat →
  Py.split sep (a +:+ String sep b) = a :: Py.split sep b.
Proof.
  induction a as [|c a IH]; simpl.
  - by rewrite Ascii.eqb_refl.
  - destruct (Ascii.eqb c sep); simpl; [done|]. intros Ha. by rewrite IH.
Qed.

(** Splitting at a separator undoes joining with it. *)
Lemma split_join sep (segs : list string) :
  segs ≠ [] → Forall (λ s, count_char sep s = 0%nat) segs →
  Py.split sep (Json.join (String sep EmptyString) segs) = segs.
Proof.
  induction segs as [|a segs IH]; [done|]. intros _ Hfree.
  apply Forall_cons in Hfree as [Ha Hfree].
  destruct segs as [|b segs]; [by apply split_free|].
  change (Json.join (String sep EmptyString) (a :: b :: segs))
    with (a +:+ String sep (Json.join (String sep EmptyString) (b :: segs))).
  rewrite split_app by done. by rewrite IH.
Qed.

Lemma split_free_segments sep s : Forall (λ w, count_char sep w = 0%nat) (Py.split sep s).
Proof.
  induction s as [|c s IH]; simpl; [by repeat constructor|].
  destruct (Ascii.eqb c sep) eqn:Hc; [by constructor|].
  destruct (Py.split sep s) as [|w ws]; [by repeat constructor; simpl; rewrite Hc|].
  apply Forall_cons in IH as [Hw Hws]. constructor; [|done]. simpl. by rewrite Hc.
Qed.

(** X1: for a link made of segments joined by slashes,
    [pname_from_url] returns the fourth segment as the name and the third
    as the number, whatever follows them, and raises an [IndexError] when
    the link has fewer than four segments; it changes nothing. *)
Theorem pname_from_url_segments (segs : list string) w :
  Forall (λ s, count_char "/" s = 0%nat) segs →
  pname_from_url (Json.join "/" segs) w
  = (match segs with
     | _ :: _ :: number :: slug :: _ => Return (slug, number)
     | _ => Raise IndexError
     end, w).
Proof.
  intros Hfree. unfold pname_from_url.
  destruct segs as [|a segs]; [done|].
  rewrite (split_join "/") by done.
  destruct segs as [|b [|c [|d segs]]]; done.
Qed.

Lemma pname_from_url_segments_witness :
  pname_from_url "/extension/1475/battery-time/" initial_world
  = (Return ("battery-time", "1475"), initial_world).
Proof.
  apply (pname_from_url_segments [EmptyString; "extension"; "1475"; "battery-time"; EmptyString]
           initial_world).
  by repeat constructor.
Defined.

(** X2: [pname_from_url] raises an [IndexError] exactly for the links
    with fewer than three slashes; for every other link it returns a name
    and a number without a slash; the world is never changed. *)
Theorem pname_from_url_IndexError url w :
  (pname_from_url url w).2 = w
  ∧ ((pname_from_url url w).1 = Raise IndexError ↔ (count_char "/" url < 3)%nat)
  ∧ ((3 ≤ count_char "/" url)%nat →
       ∃ slug number, (pname_from_url url w).1 = Return (slug, number)
         ∧ count_char "/" slug = 0%nat ∧ count_char "/" number = 0%nat).
Proof.
  pose proof (split_length "/" url) as Hlen.
  pose proof (split_free_segments "/" url) as Hfree.
  unfold pname_from_url, index, bind.
  destruct (Py.split "/" url) as [|a [|b [|c [|d segs]]]]; simpl in *;
    try (split_and!; [done|split; [intros _; lia|done]|intros; lia]).
  split_and!; [done|split; [done|intros; lia]|].
  intros _. exists d, c. apply Forall_cons in Hfree as [_ Hfree].
  apply Forall_cons in Hfree as [_ Hfree]. apply Forall_cons in Hfree as [Hc Hfree].
  apply Forall_cons in Hfree as [Hd _]. done.
Qed.

(** ** Labels of shell versions *)

Lemma prefix_comparable (p1 p2 s : string) :
  String.prefix p1 s = true → String.prefix p2 s = true →
  String.prefix p1 p2 = true ∨ String.prefix p2 p1 = true.
Proof.
  revert p1 p2. induction s as [|c s IH]; intros [|c1 p1] [|c2 p2]; simpl; try by eauto.
  destruct (ascii_dec c1 c) as [->|]; [|done].
  destruct (ascii_dec c2 c) as [->|]; [|done].
  destruct (ascii_dec c c); [|done]. apply IH.
Qed.

(** X3: a shell version label counts for at most one supported version:
    no label starts with the prefixes of two of them. *)
Theorem label_in_one_group shell_ver item1 item2 :
  item1 ∈ supported_versions → item2 ∈ supported_versions →
  Py.startswith shell_ver item1.2 = true → Py.startswith shell_ver item2.2 = true →
  item1 = item2.
Proof.
  intros Hin1 Hin2 Hp1 Hp2.
  assert (Hall : Forall (λ x, Forall (λ y, String.prefix x.2 y.2 = true → x = y)
                                supported_versions) supported_versions).
  { apply (bool_decide_unpack _). by vm_compute. }
  rewrite Forall_forall in Hall.
  destruct (prefix_comparable _ _ _ Hp1 Hp2) as [H12|H21].
  - specialize (Hall _ Hin1). rewrite Forall_forall in Hall. by apply Hall.
  - specialize (Hall _ Hin2). rewrite Forall_forall in Hall. symmetry. by apply Hall.
Qed.

Lemma label_in_one_group_witness :
  (("38", "3.38") : ShellVersion * string) = ("38", "3.38").
Proof.
  apply (label_in_one_group "3.38.2" ("38", "3.38") ("38", "3.38"));
    first [apply (bool_decide_unpack _); by vm_compute | reflexivity].
Defined.

(** X4: the selection depends only on the labels that start with the
    prefix of a supported version: two maps that agree on these labels
    give the same selection, so that the versions for other releases of
    the shell never reach the output. *)
Theorem select_versions_relevant_labels (m1 m2 : gmap ShellVersion ExtensionVersion) :
  (∀ shell_ver, relevant shell_ver → m1 !! shell_ver = m2 !! shell_ver) →
  select_versions m1 = select_versions m2.
Proof.
  intros Hagree.
  assert (Hnew : ∀ item, item ∈ supported_versions →
                   newest_compatible m1 item.2 = newest_compatible m2 item.2).
  { intros item Hitem.
    assert (Hsome : ∀ (ma mb : gmap ShellVersion ExtensionVersion),
              (∀ shell_ver, relevant shell_ver → ma !! shell_ver = mb !! shell_ver) →
              ∀ v, newest_compatible ma item.2 = Some v → newest_compatible mb item.2 = Some v).
    { intros ma mb Hab v [(k & Hk & Hp) Hmax]%newest_compatible_Some.
      apply newest_compatible_Some. split.
      - exists k. split; [|done]. rewrite <- Hab; [done|by exists item].
      - intros k' v' Hk' Hp'. apply (Hmax k'); [|done].
        rewrite Hab; [done|by exists item]. }
    destruct (newest_compatible m1 item.2) as [v|] eqn:H1.
    - symmetry. by apply (Hsome m1 m2).
    - destruct (newest_compatible m2 item.2) as [v|] eqn:H2; [|done].
      apply (Hsome m2 m1) in H2; [congruence|].
      intros k Hk. symmetry. by apply Hagree. }
  rewrite !select_versions_omap. revert Hnew.
  generalize supported_versions. intros l.
  induction l as [|item l IH]; intros Hnew; [done|].
  assert (Hsel : selected m1 item = selected m2 item).
  { unfold selected. by rewrite (Hnew item) by left. }
  assert (Hrest : omap (selected m1) l = omap (selected m2) l).
  { apply IH. intros item' Hin. apply Hnew. by right. }
  simpl. rewrite Hsel. fold (omap (selected m1) l) (omap (selected m2) l).
  by rewrite Hrest.
Qed.

Lemma select_versions_relevant_labels_witness :
  select_versions (<["3.36" := 7]> (<["44" := 10]> ∅))
  = select_versions (<["44" := 10]> ∅).
Proof.
  apply select_versions_relevant_labels.
  intros shell_ver (item & Hitem & Hprefix).
  destruct (decide (shell_ver = "3.36")) as [->|Hne]; [|by rewrite lookup_insert_ne].
  assert (Hall : Forall (λ item, Py.startswith "3.36" item.2 = false) supported_versions)
    by (apply (bool_decide_unpack _); by vm_compute).
  rewrite Forall_forall in Hall. by rewrite (Hall _ Hitem) in Hprefix.
Defined.

(** ** The registry over a run *)

Section Steps.
Context (R : World → World → Prop) `{!Reflexive R, !Transitive R}.

Lemma steps_ret {A} (a : A) : steps R (ret a).
Proof. by intros w. Qed.

Lemma steps_raise {A} (e : Exn) : steps R (raise (A := A) e).
Proof. by intros w. Qed.

Lemma steps_bind {A B} (m : M A) (k : A → M B) :
  steps R m → (∀ a, steps R (k a)) → steps R (bind m k).
Proof.
  intros Hm Hk w. unfold bind. specialize (Hm w).
  destruct (m w) as [[a|e] w1]; simpl in *; [|done].
  etrans; [exact Hm|apply Hk].
Qed.

Lemma steps_for_each {A B} (l : list A) (b : B) (body : B → A → M B) :
  (∀ b a, steps R (body b a)) → steps R (for_each l b body).
Proof.
  intros Hbody. revert b. induction l as [|a l IH]; intros b; simpl.
  - apply steps_ret.
  - apply steps_bind; [apply Hbody|done].
Qed.

End Steps.

Global Instance registry_grows_refl : Reflexive registry_grows.
Proof.
  intros registry. split; [done|]. intros g names Hg. exists names. split; [done|].
  intros p uuids Hp. by exists uuids.
Qed.

Global Instance registry_grows_trans : Transitive registry_grows.
Proof.
  intros r1 r2 r3 [Hdom12 H12] [Hdom23 H23]. split; [congruence|].
  intros g names1 Hg1.
  destruct (H12 _ _ Hg1) as (names2 & Hg2 & Hn12).
  destruct (H23 _ _ Hg2) as (names3 & Hg3 & Hn23).
  exists names3. split; [done|]. intros p uuids1 Hp1.
  destruct (Hn12 _ _ Hp1) as (uuids2 & Hp2 & Hpre12).
  destruct (Hn23 _ _ Hp2) as (uuids3 & Hp3 & Hpre23).
  exists uuids3. split; [done|]. by etrans.
Qed.

Lemma registry_grows_insert (registry : gmap ShellVersion (gmap PackageName (list Uuid)))
    shell_version names pname uuid :
  registry !! shell_version = Some names →
  registry_grows registry
    (<[shell_version := <[pname := default [] (names !! pname) ++ [uuid]]> names]> registry).
Proof.
  intros Hnames. split.
  - rewrite dom_insert_L. apply elem_of_dom_2 in Hnames. set_solver.
  - intros g names0 Hg. destruct (decide (g = shell_version)) as [->|Hne].
    + rewrite lookup_insert_eq. eexists. split; [done|].
      assert (names0 = names) as -> by congruence.
      intros p uuids Hp. destruct (decide (p = pname)) as [->|Hp'].
      * rewrite lookup_insert_eq, Hp. eexists. split; [done|]. by apply prefix_app_r.
      * rewrite lookup_insert_ne by done. by exists uuids.
    + rewrite lookup_insert_ne by done. exists names0. split; [done|].
      intros p uuids Hp. by exists uuids.
Qed.

Global Instance world_grows_refl : Reflexive world_grows.
Proof. intros w. unfold world_grows. reflexivity. Qed.

Global Instance world_grows_trans : Transitive world_grows.
Proof. intros w1 w2 w3 H12 H23. unfold world_grows in *. by etrans. Qed.

Lemma register_pname_run pname uuid shell_version w :
  register_pname pname uuid shell_version w
  = match package_name_registry w !! shell_version with
    | None => (Raise (KeyError shell_version), w)
    | Some names =>
        (Return tt,
         {| trace :=
              match names !! pname with
              | Some _ =>
                  EvLog WARNING ("Package name '" +:+ pname +:+ "' for GNOME '"
                                 +:+ shell_version +:+ "' is colliding.") :: trace w
              | None => trace w
              end;
            package_name_registry :=
              <[shell_version := <[pname := default [] (names !! pname) ++ [uuid]]> names]>
                (package_name_registry w) |})
    end.
Proof.
  unfold register_pname, bind, get_registry.
  destruct (package_name_registry w !! shell_version) as [names|]; [|done].
  by destruct (names !! pname).
Qed.

Lemma register_pname_grows pname uuid shell_version :
  steps world_grows (register_pname pname uuid shell_version).
Proof.
  intros w. rewrite register_pname_run. unfold world_grows.
  destruct (package_name_registry w !! shell_version) as [names|] eqn:Hnames; simpl; [|done].
  by apply registry_grows_insert.
Qed.

Lemma logging_grows lvl msg : steps world_grows (logging lvl msg).
Proof. intros w. unfold world_grows. simpl. reflexivity. Qed.

Lemma keeps_registry_grows {A} (m : M A) :
  keeps package_name_registry m → steps world_grows m.
Proof. intros Hm w. unfold world_grows. rewrite Hm. reflexivity. Qed.

Lemma process_extension_grows env extension :
  steps world_grows (process_extension env extension).
Proof.
  unfold process_extension. destruct (decide _); [apply (steps_ret world_grows)|].
  apply (steps_bind world_grows); [apply logging_grows|]. intros _.
  apply (steps_bind world_grows).
  { apply keeps_registry_grows, generate_extension_versions_keeps_registry. }
  intros [|entry svm]; [apply (steps_ret world_grows)|].
  apply (steps_bind world_grows).
  { apply keeps_registry_grows. unfold pname_from_url. keeps_auto. }
  intros names. apply (steps_bind world_grows); [|intros; apply (steps_ret world_grows)].
  apply (steps_for_each world_grows). intros _ g. apply register_pname_grows.
Qed.

Lemma process_all_grows env raw_extensions :
  steps world_grows (process_all env raw_extensions).
Proof.
  unfold process_all.
  apply (steps_for_each world_grows).
  intros processed item. apply (steps_bind world_grows); [apply process_extension_grows|].
  intros [e|]; [|apply (steps_ret world_grows)].
  apply (steps_bind world_grows); [apply logging_grows|].
  intros _. apply (steps_ret world_grows).
Qed.

(** X5: over the processing of any list of records the registry only
    grows by appending, however the processing ends: no shell version is
    added or removed, no name disappears, and the identifiers a name had
    stay the first of its identifiers, in their order. *)
Theorem process_all_registry_grows env raw_extensions w :
  registry_grows (package_name_registry w)
                 (package_name_registry (process_all env raw_extensions w).2).
Proof. apply process_all_grows. Qed.

(** ** Failures of a record *)

Lemma initial_registry_ready : registry_ready initial_registry.
Proof.
  unfold registry_ready. apply Forall_forall.
  apply (bool_decide_unpack _). by vm_compute.
Qed.

Lemma read_metadata_failure env process w e :
  (read_metadata env process w).1 = Raise e → record_failure e.
Proof.
  unfold read_metadata, index, bind, record_failure.
  destruct (Py.splitlines (stdout process) !! 0%nat); [|intros [= <-]; eauto]. simpl.
  destruct (Py.splitlines (stdout process) !! 1%nat); [|intros [= <-]; eauto]. simpl.
  rewrite open_read_run. destruct (read_text _ _ _); [|intros [= <-]; eauto 6].
  unfold encode_ascii. destruct (forallb _ _); [done|intros [= <-]; eauto 6].
Qed.

Lemma fetch_extension_data_failure env uuid version w e :
  (fetch_extension_data env uuid version w).1 = Raise e → record_failure e.
Proof.
  destruct (fetch_extension_data_run env uuid version w) as (c & w' & -> & _).
  destruct (negb _); [|apply read_metadata_failure].
  intros [= <-]. by left.
Qed.

(** The loop of the downloads: it fails as a download fails, and when it
    returns, the cache has every version of the loop. *)
Lemma download_loop_outcome uuid env versions cache w :
  match (for_each versions cache (download uuid env) w).1 with
  | Raise e => record_failure e
  | Return cache' =>
      ∀ v, v ∈ versions ∨ is_Some (cache !! v) → is_Some (cache' !! v)
  end.
Proof.
  revert cache w. induction versions as [|v versions IH]; intros cache w; simpl.
  - intros v [Hv|Hv]; [by apply elem_of_nil in Hv|done].
  - unfold bind at 1. unfold download at 1. unfold bind at 1; cbn [logging emit].
    unfold bind at 1.
    match goal with |- context [fetch_extension_data env uuid ?s ?w1] =>
      pose proof (fetch_extension_data_failure env uuid s w1) as Hfail;
      destruct (fetch_extension_data env uuid s w1) as [[info|e] w2] end; simpl in *.
    + specialize (IH (<[v := info]> cache) w2).
      destruct (for_each versions _ _ w2) as [[cache'|e] w3]; simpl in *; [|done].
      intros v' Hv'. apply IH.
      destruct (decide (v' = v)) as [->|Hne]; [right; by rewrite lookup_insert_eq|].
      rewrite lookup_insert_ne by done.
      destruct Hv' as [[->|Hv']%elem_of_cons|Hv']; [done|by left|by right].
    + by apply Hfail.
Qed.

Lemma fill_loop_returns cache items acc w :
  (∀ item, item ∈ items → is_Some (cache !! item.2)) →
  ∃ full, for_each items acc (fill cache) w = (Return full, w).
Proof.
  revert acc. induction items as [|item items IH]; intros acc Hcache; simpl.
  - by exists acc.
  - unfold bind, fill at 1. destruct (Hcache item) as [info ->]; [left|]. simpl.
    apply IH. intros item' Hin. apply Hcache. by right.
Qed.

Lemma generate_extension_versions_failure env m uuid w e :
  (generate_extension_versions env m uuid w).1 = Raise e → record_failure e.
Proof.
  rewrite generate_extension_versions_unfold. unfold bind.
  match goal with |- context [for_each ?vs ∅ (download uuid env) w] =>
    pose proof (download_loop_outcome uuid env vs ∅ w) as Hloop;
    destruct (for_each vs ∅ (download uuid env) w) as [[cache|e'] w1] end;
    simpl in Hloop; cbv beta iota.
  - destruct (fill_loop_returns cache (select_versions m) [] w1) as [full Hfull].
    { intros item Hitem. apply Hloop. left.
      rewrite (sorted_by_perm id). apply elem_of_elements, elem_of_list_to_set.
      apply list_elem_of_fmap. by exists item. }
    intros Hraise.
    assert (Heq : Raise e = Return full)
      by (rewrite <- Hraise; exact (f_equal fst Hfull)).
    done.
  - simpl. by intros [= <-].
Qed.

(** With a dictionary for each of its keys, the loop that records the
    name does not fail. *)
Lemma register_loop_returns pname uuid keys w :
  (∀ k, k ∈ keys → is_Some (package_name_registry w !! k)) →
  (for_each keys tt (λ _ shell_version, register_pname pname uuid shell_version) w).1
  = Return tt.
Proof.
  revert w. induction keys as [|k keys IH]; intros w Hkeys; simpl; [done|].
  unfold bind. rewrite register_pname_run.
  destruct (Hkeys k) as [names ->]; [left|].
  apply IH. intros k' Hk'. simpl. apply lookup_insert_is_Some'. right.
  destruct (Hkeys k') as [names' Hnames']; [by right|]. by eexists.
Qed.

Lemma pname_from_url_outcome url w :
  (pname_from_url url w).2 = w
  ∧ ∀ e, (pname_from_url url w).1 = Raise e → e = IndexError.
Proof.
  unfold pname_from_url, index, bind.
  destruct (_ !! 3%nat); [|split; [done|by intros e [= <-]]].
  destruct (_ !! 2%nat); split; try done. by intros e [= <-].
Qed.

(** How [process_extension] fails. *)
Lemma process_extension_Raise env extension w e w' :
  registry_ready (package_name_registry w) →
  process_extension env extension w = (Raise e, w') →
  record_failure e ∧ package_name_registry w' = package_name_registry w.
Proof.
  intros Hready. unfold process_extension. destruct (decide _); [done|].
  unfold bind at 1; cbn [logging emit]. unfold bind at 1.
  match goal with |- context [generate_extension_versions env ?m ?u ?w1] =>
    pose proof (generate_extension_versions_failure env m u w1) as Hfail;
    pose proof (generate_extension_versions_keeps_registry env m u w1) as Hkeeps;
    destruct (generate_extension_versions env m u w1) as [[svm|e'] w2] eqn:Hgen end;
    simpl in Hfail, Hkeeps.
  - destruct svm as [|entry svm]; [done|].
    unfold bind at 1.
    destruct (pname_from_url_outcome (raw_link extension) w2) as (Hw & Hindex).
    destruct (pname_from_url (raw_link extension) w2) as [[names|e'] w3] eqn:Hnames;
      simpl in Hw, Hindex; subst w3.
    + unfold bind.
      match goal with |- context [for_each ?keys tt ?body w2] =>
        pose proof (register_loop_returns names.1 (raw_uuid extension) keys w2) as Hloop;
        destruct (for_each keys tt body w2) as [[[]|e'] w4] end; [done|].
      simpl in Hloop. discriminate Hloop.
      intros k Hk. rewrite Hkeeps. apply Hready.
      apply generate_extension_versions_keys in Hgen.
      assert (Hk' : k ∈ Py.dict_keys (entry :: svm)) by exact Hk.
      rewrite Hgen in Hk'.
      eapply elem_of_sublist; [exact Hk'|]. apply select_versions_keys_sublist.
    + intros [= <- <-]. split; [|done]. right; left. by apply Hindex.
  - intros [= <- <-]. split; [by apply Hfail|done].
Qed.

Lemma record_failure_no_lookup e : record_failure e → ¬ lookup_failure e.
Proof.
  unfold record_failure, lookup_failure, retried_10_times.
  intros [-> | [-> | [[path ->] | ->]]] [Hloop | (key & Hkey & _)]; discriminate.
Qed.

(** X6: with a dictionary in the registry for every supported version,
    the lookups of [process_extension] and of the functions it calls
    find what they look for: whatever makes the processing of a record
    fail, it is neither a [KeyError] for a supported shell version (the
    registry has every shell version of a selection) or for a version
    number (the cache has every selected version once the downloads
    are done), nor the [UnboundLocalError] of a download loop that has
    not run. *)
Theorem process_extension_failure env extension w e w' :
  registry_ready (package_name_registry w) →
  process_extension env extension w = (Raise e, w') →
  ¬ lookup_failure e.
Proof.
  intros Hready Hrun. apply record_failure_no_lookup.
  by destruct (process_extension_Raise env extension w e w' Hready Hrun).
Qed.

Lemma process_extension_failure_witness : ¬ lookup_failure UnicodeEncodeError.
Proof.
  assert (Hrun : ∃ w', process_extension store_with_accent battery_time initial_world
                       = (Raise UnicodeEncodeError, w')) by (vm_compute; eauto).
  destruct Hrun as [w' Hrun].
  apply (process_extension_failure store_with_accent battery_time initial_world
           UnicodeEncodeError w' initial_registry_ready Hrun).
Defined.

(** ** The records of the output *)

Lemma select_versions_empty : select_versions ∅ = [].
Proof.
  rewrite select_versions_omap. generalize supported_versions. intros l.
  induction l as [|item l IH]; [done|]. simpl. unfold selected at 1.
  replace (newest_compatible ∅ item.2) with (@None ExtensionVersion); [done|].
  symmetry. apply newest_compatible_None. intros shell_ver v Hv.
  by rewrite lookup_empty in Hv.
Qed.

Lemma versions_of_zip {A B C : Type} (f : A → B → C) (g : C → string * string)
    (h : A → string * string) (l : list A) (infos : list B) :
  (∀ a b, g (f a b) = h a) →
  length infos = length l →
  g <$> zip_with f l infos = h <$> l.
Proof.
  intros Hgf. revert infos. induction l as [|a l IH]; intros [|b infos] Hlen;
    simpl in *; try done.
  rewrite Hgf. f_equal. apply IH. lia.
Qed.

(** What [process_extension] returns: [None] for a record with an empty
    selection, and for the others the output record of the raw record. *)
Lemma process_extension_Return env extension w o w' :
  process_extension env extension w = (Return o, w') →
  match o with
  | None => is_kept extension = false
  | Some e => is_kept extension = true ∧ made_from e extension
  end.
Proof.
  unfold process_extension, is_kept. destruct (decide _) as [Hempty|Hne].
  { intros [= <- <-]. rewrite Hempty, fmap_empty, select_versions_empty.
    by apply bool_decide_eq_false_2; intros []. }
  intros (u & w1 & _ & Hrun)%bind_Return_inv.
  apply bind_Return_inv in Hrun as (svm & w2 & Hgen & Hrest).
  pose proof (generate_extension_versions_keys _ _ _ _ _ _ Hgen) as Hkeys.
  apply generate_extension_versions_Return in Hgen as (infos & Hlen & Hsvm).
  destruct svm as [|entry svm].
  { injection Hrest as <- <-. apply bool_decide_eq_false_2. intros Hsel. apply Hsel.
    destruct (select_versions _); [done|discriminate Hkeys]. }
  apply bind_Return_inv in Hrest as (names & w3 & Hnames & Hrest).
  apply bind_Return_inv in Hrest as ([] & w4 & _ & Hret).
  injection Hret as <- <-. split.
  { apply bool_decide_eq_true_2. intros Hsel. by rewrite Hsel in Hkeys. }
  unfold made_from; cbn [uuid name description link pname shell_version_map].
  split_and!; try done.
  - unfold pname_from_url, index, bind in Hnames.
    destruct (_ !! 3%nat) as [a|]; [|done]. destruct (_ !! 2%nat); [|done].
    by injection Hnames as <- <-.
  - rewrite Hsvm. by apply versions_of_zip.
Qed.

Lemma process_all_loop env (total : nat) (items : list (nat * RawExtension))
    (acc out : list ProcessedExtension) w w' :
  for_each items acc
    (λ processed_extensions item,
       processed_extension <- process_extension env item.2;;
       match processed_extension with
       | Some e =>
           logging DEBUG ("Processed " +:+ Py.str_of_int (Z.of_nat item.1 + 1) +:+ " / "
                          +:+ Py.str_of_int (Z.of_nat total));;
           ret (processed_extensions ++ [e])%list
       | None => ret processed_extensions
       end) w = (Return out, w') →
  ∃ new, out = acc ++ new
    ∧ Forall2 made_from new (filter (λ extension, is_kept extension) items.*2).
Proof.
  revert acc w. induction items as [|item items IH]; intros acc w; simpl.
  { intros [= <- <-]. exists []. split; [by rewrite app_nil_r|constructor]. }
  intros (acc1 & w1 & Hbody & Hrest)%bind_Return_inv.
  apply IH in Hrest as (new & -> & Hnew).
  apply bind_Return_inv in Hbody as (o & w2 & Hrun & Hbody).
  apply process_extension_Return in Hrun. destruct o as [e|].
  - destruct Hrun as [Hkept Hmade].
    apply bind_Return_inv in Hbody as (u & w3 & _ & Hret). injection Hret as <- <-.
    exists (e :: new). split; [by rewrite <- app_assoc|].
    rewrite filter_cons_True by by rewrite Hkept. by constructor.
  - injection Hbody as <- <-. exists new. split; [done|].
    rewrite filter_cons_False; [done|]. rewrite Hrun. exact id.
Qed.

Lemma process_all_Return env raw_extensions w processed_extensions w' :
  process_all env raw_extensions w = (Return processed_extensions, w') →
  Forall2 made_from processed_extensions
    (filter (λ extension, is_kept extension) raw_extensions).
Proof.
  unfold process_all. intros Hrun.
  apply (process_all_loop env (length raw_extensions)) in Hrun as (new & -> & Hnew).
  replace ((imap (λ num raw_extension, (num, raw_extension)) raw_extensions).*2)
    with raw_extensions in Hnew; [done|].
  generalize 0%nat. clear. 
  assert (Hgen : ∀ (f : nat → nat) (l : list RawExtension),
             l = (imap (λ num raw_extension, (f num, raw_extension)) l).*2).
  { intros f l. revert f. induction l as [|r l IH]; intros f; [done|]. simpl. f_equal.
    apply (IH (f ∘ S)). }
  intros _. apply (Hgen id).
Qed.

(** X7: when the processing of the records completes, the output has one
    record for each raw record whose selection of versions is not empty,
    in the order of the input, and none for the others; the record of a
    raw record has its identifier, name and description, the absolute
    link, the fourth segment of the link as its package name, and the
    selected shell versions in the order of the supported versions, each
    with its selected version as a text. *)
Theorem process_all_output env raw_extensions w processed_extensions w' :
  process_all env raw_extensions w = (Return processed_extensions, w') →
  Forall2 made_from processed_extensions
    (filter (λ extension, is_kept extension) raw_extensions).
Proof. apply process_all_Return. Qed.

Lemma process_all_output_witness :
  ∃ processed_extensions,
    (process_all ready_store [sample_extension 1; battery_time] initial_world).1
    = Return processed_extensions
    ∧ Forall2 made_from processed_extensions
        (filter (λ extension, is_kept extension) [sample_extension 1; battery_time]).
Proof.
  assert (Hrun : ∃ out w', process_all ready_store [sample_extension 1; battery_time]
                             initial_world = (Return out, w')) by (vm_compute; eauto).
  destruct Hrun as (out & w' & Hrun). exists out. rewrite Hrun. split; [done|].
  apply (process_all_output ready_store [sample_extension 1; battery_time]
           initial_world out w' Hrun).
Defined.

(** ** Scrapes that do not end with a last page *)

(** The iterations of the full pages: the loop asks for each of them,
    after its failures, keeps its items and goes on with the next page. *)
Lemma scrape_loop_full_pages env (pages : list (list Z * list RawExtension))
    (rest : list Exchange) :
  ∀ fuel page extensions w,
    Forall (λ p, retried p.1 ∧ (25 ≤ length p.2)%nat) pages →
    answers env (length (urlopen_calls (trace w))) (page + 1) (full_pages pages ++ rest) →
    ∃ w', scrape_loop env (length pages + fuel) page extensions w
          = scrape_loop env fuel (page + Z.of_nat (length pages))
              (extensions ++ concat pages.*2) w'
      ∧ urlopen_calls (trace w')
        = reverse (requested (page + 1) (full_pages pages)) ++ urlopen_calls (trace w)
      ∧ answers env (length (urlopen_calls (trace w')))
          (page + Z.of_nat (length pages) + 1) rest.
Proof.
  induction pages as [|[fails data] pages IH]; intros fuel page extensions w Hpages Hanswers.
  - exists w. simpl in *. rewrite Z.add_0_r, app_nil_r. done.
  - apply Forall_cons in Hpages as [[Hretried Hfull] Hpages].
    destruct Hanswers as (Hfails & Hreply & Hanswers).
    change (length ((fails, data) :: pages) + fuel)%nat with (S (length pages + fuel)).
    cbn [scrape_loop]. unfold bind at 1. cbn [logging emit].
    set (w0 := {| trace := _ :: trace w; package_name_registry := _ |}).
    assert (H0 : urlopen_calls (trace w0) = urlopen_calls (trace w)) by reflexivity.
    unfold bind at 1, try_except, bind at 1.
    destruct (request_after_retries env (page_url (page + 1)) w0 fails (HttpOk data))
      as (w1 & Hrun & Hcalls & _); [done|exact Hfails|exact Hreply|done|].
    rewrite H0 in Hcalls. rewrite Hrun.
    simpl in Hfull. apply Nat.ltb_ge in Hfull. rewrite Hfull. cbn [ret snd fst].
    destruct (IH fuel (page + 1) (extensions ++ data) w1) as (w' & Hloop & Hreqs & Hrest);
      [done| |].
    { rewrite Hcalls. rewrite length_app, length_replicate.
      replace (S (length fails) + length (urlopen_calls (trace w)))%nat
        with (length (urlopen_calls (trace w)) + length fails + 1)%nat by lia.
      exact Hanswers. }
    rewrite Hloop. exists w'.
    replace (page + Z.of_nat (length ((fails, data) :: pages)))
      with (page + 1 + Z.of_nat (length pages)) by (simpl; lia).
    split_and!; [|rewrite Hreqs, Hcalls|exact Hrest].
    + cbn [fmap list_fmap concat snd]. by rewrite <- app_assoc.
    + change (full_pages ((fails, data) :: pages)) with ((fails, HttpOk data) :: full_pages pages).
      cbn [requested]. by rewrite reverse_app, reverse_replicate, <- app_assoc.
Qed.

Lemma requested_app schedule1 schedule2 page :
  requested page (schedule1 ++ schedule2)
  = requested page schedule1 ++ requested (page + Z.of_nat (length schedule1)) schedule2.
Proof.
  revert page. induction schedule1 as [|[fails reply] schedule1 IH]; intros page.
  - simpl. by rewrite Z.add_0_r.
  - cbn [app requested]. rewrite IH, <- app_assoc. do 3 f_equal. simpl length. lia.
Qed.

(** X8: let the server answer full pages, each after at most five
    failures that are retried, and then fail with a code other than 404
    that [request] does not retry, or that it has retried five times.
    Then [scrape_extensions_index] raises this failure, with no result
    for the pages it has read, after asking for each page in turn and
    for none after the failure. *)
Theorem scrape_extensions_index_fails env (pages : list (list Z * list RawExtension))
    (last_fails : list Z) (code : Z) fuel w :
  Forall (λ p, retried p.1 ∧ (25 ≤ length p.2)%nat) pages →
  retried last_fails →
  handed_on last_fails (HttpFail code) →
  code ≠ 404 →
  answers env (length (urlopen_calls (trace w))) 1
    (scrape_schedule pages last_fails (HttpFail code)) →
  (length pages < fuel)%nat →
  ∃ w', scrape_extensions_index env fuel w = (Raise (HTTPError code), w')
    ∧ urlopen_calls (trace w')
      = reverse (requested 1 (scrape_schedule pages last_fails (HttpFail code)))
        ++ urlopen_calls (trace w).
Proof.
  intros Hpages Hlast Hhanded Hcode Hanswers Hfuel.
  destruct (scrape_loop_full_pages env pages [(last_fails, HttpFail code)]
              (fuel - length pages) 0 [] w Hpages Hanswers)
    as (w1 & Hloop & Hcalls & Hfails & Hreply & _).
  replace (length pages + (fuel - length pages))%nat with fuel in Hloop by lia.
  unfold scrape_extensions_index. unfold bind at 1. rewrite Hloop.
  destruct (fuel - length pages)%nat as [|fuel'] eqn:Hleft; [lia|].
  cbn [scrape_loop]. unfold bind at 1. cbn [logging emit].
  set (w0 := {| trace := _ :: trace w1; package_name_registry := _ |}).
  assert (H0 : urlopen_calls (trace w0) = urlopen_calls (trace w1)) by reflexivity.
  unfold bind at 1, try_except, bind at 1.
  destruct (request_after_retries env (page_url (0 + Z.of_nat (length pages) + 1)) w0
              last_fails (HttpFail code)) as (w2 & Hrun & Hcalls2 & _);
    [done|exact Hfails|exact Hreply|done|].
  rewrite Hrun. apply Z.eqb_neq in Hcode. rewrite Hcode. cbn [raise].
  exists w2. split; [done|].
  rewrite Hcalls2, H0, Hcalls. unfold scrape_schedule. fold (full_pages pages).
  rewrite requested_app, reverse_app. unfold full_pages at 2. rewrite length_fmap.
  cbn [requested]. rewrite app_nil_r, reverse_replicate, <- app_assoc.
  by replace (0 + Z.of_nat (length pages) + 1) with (1 + Z.of_nat (length pages)) by lia.
Qed.

Lemma scrape_extensions_index_fails_witness :
  ∃ w', scrape_extensions_index overloaded_server 1 initial_world
        = (Raise (HTTPError 503), w')
    ∧ urlopen_calls (trace w') = replicate 6 (page_url 1).
Proof.
  destruct (scrape_extensions_index_fails overloaded_server [] (replicate 5 503) 503 1
              initial_world) as (w' & Hrun & Hcalls).
  - constructor.
  - split; [|unfold default_retries; simpl; lia]. apply Forall_forall. intros code ->%elem_of_replicate_inv.
    apply (bool_decide_unpack _). by vm_compute.
  - by right.
  - done.
  - cbn [scrape_schedule fmap list_fmap app answers fst snd]. split_and!; [|done..].
    by intros j code [-> _]%lookup_replicate.
  - simpl. lia.
  - exists w'. split; [exact Hrun|]. rewrite Hcalls. by vm_compute.
Defined.

(** X9: a full page does not end the scrape.  When the server answers
    full pages, each after at most five failures that are retried, then
    after as many iterations as there are pages the loop has asked for
    each of these pages in turn and has not left. *)
Theorem scrape_extensions_index_goes_on env (pages : list (list Z * list RawExtension)) w :
  Forall (λ p, retried p.1 ∧ (25 ≤ length p.2)%nat) pages →
  answers env (length (urlopen_calls (trace w))) 1 (full_pages pages) →
  ∃ w', scrape_extensions_index env (length pages) w = (Return None, w')
    ∧ urlopen_calls (trace w')
      = reverse (requested 1 (full_pages pages)) ++ urlopen_calls (trace w).
Proof.
  intros Hpages Hanswers.
  destruct (scrape_loop_full_pages env pages [] 0 0 [] w Hpages) as (w' & Hloop & Hcalls & _).
  { by rewrite app_nil_r. }
  rewrite Nat.add_0_r in Hloop. exists w'. split; [|done].
  unfold scrape_extensions_index, bind. by rewrite Hloop.
Qed.

Lemma scrape_extensions_index_goes_on_witness :
  ∃ w', scrape_extensions_index endless_server 3 initial_world = (Return None, w')
    ∧ urlopen_calls (trace w') = [page_url 3; page_url 2; page_url 1].
Proof.
  destruct (scrape_extensions_index_goes_on endless_server
              (replicate 3 ([], sample_extension <$> seqZ 0 25)) initial_world)
    as (w' & Hrun & Hcalls).
  - repeat constructor; simpl; lia.
  - cbn [replicate full_pages fmap list_fmap answers fst snd]. repeat split.
    all: intros [|j] code Hj; simplify_eq/=.
  - exists w'. split; [exact Hrun|]. rewrite Hcalls. by vm_compute.
Defined.

(** ** Whole runs *)

Lemma request_loop_keeps env attempts url retries retry_codes :
  keeps processing_state (request_loop env attempts url retries retry_codes).
Proof.
  induction attempts as [|attempt attempts IH]; cbn [request_loop];
    keeps_with ltac:(first [by intros ?|apply IH]).
Qed.

Lemma request_outcome env url w :
  ∃ r w', request env url default_retries default_retry_codes w = (r, w')
    ∧ processing_state w' = processing_state w
    ∧ match r with
      | Return _ => True
      | Raise e => ∃ code, e = HTTPError code
      end.
Proof.
  pose proof (request_loop_keeps env (seq 0 (default_retries + 1)) url
                default_retries default_retry_codes) as Hkeeps.
  unfold request in *. rewrite Nat.add_1_r in *.
  destruct (request_loop_spec env url default_retries default_retry_codes default_retries 0 w)
    as (c & w' & Hrun & _); [lia|].
  eexists _, w'. split; [exact Hrun|]. split.
  - eapply keeps_eq; [|exact Hrun]. apply Hkeeps.
  - destruct (urlopen env _ url); eauto.
Qed.

Lemma scrape_loop_outcome env fuel :
  ∀ page extensions w r w',
    scrape_loop env fuel page extensions w = (r, w') →
    processing_state w' = processing_state w
    ∧ match r with
      | Return _ => True
      | Raise e => scrape_failure e
      end.
Proof.
  induction fuel as [|fuel IH]; intros page extensions w r w'; [by intros [= <- <-]|].
  cbn [scrape_loop]. unfold bind at 1. cbn [logging emit].
  set (w0 := {| trace := _ :: trace w; package_name_registry := _ |}).
  assert (H0 : processing_state w0 = processing_state w) by reflexivity.
  unfold bind at 1, try_except, bind at 1.
  destruct (request_outcome env (page_url (page + 1)) w0) as (r1 & w1 & Hrun & Hstate & Hr).
  rewrite Hrun. rewrite H0 in Hstate. destruct r1 as [data|e].
  - destruct (length data <? 25)%nat.
    + unfold bind at 1; cbn [logging emit ret fst snd]. intros [= <- <-]. split; [|done].
      by rewrite <- Hstate.
    + cbn [ret fst snd]. rewrite <- Hstate. apply IH.
  - destruct Hr as [code ->]. destruct (code =? 404) eqn:Hcode; cbn [ret raise fst snd].
    + by intros [= <- <-].
    + intros [= <- <-]. split; [done|]. exists code. split; [done|]. by apply Z.eqb_neq.
Qed.

Lemma scrape_extensions_index_outcome env fuel w :
  processing_state (scrape_extensions_index env fuel w).2 = processing_state w
  ∧ match (scrape_extensions_index env fuel w).1 with
    | Return (Some extensions) =>
        StronglySorted (λ a b, raw_pk a ≤ raw_pk b) extensions
    | Return None => True
    | Raise e => scrape_failure e
    end.
Proof.
  unfold scrape_extensions_index, bind.
  destruct (scrape_loop env fuel 0 [] w) as [r w1] eqn:Hrun.
  apply scrape_loop_outcome in Hrun as [Hstate Hr].
  destruct r as [[extensions|]|e]; simpl in *; try done.
  split; [done|]. apply sorted_by_sorted.
Qed.

(** X10: however a run of [scrape_extensions_index] ends, it leaves the
    registry as it is, runs no download tool and reads no file; a list
    it returns is in the order of the [pk] of its items; a 404 never
    leaves it as an exception, as it is taken for the end of the index;
    and the attempts of a request never end without a response or an
    exception, so that the [RuntimeError] of a generator that has not
    yielded does not occur. *)
Theorem scrape_extensions_index_safe env fuel w :
  package_name_registry (scrape_extensions_index env fuel w).2 = package_name_registry w
  ∧ prefetch_calls (trace (scrape_extensions_index env fuel w).2) = prefetch_calls (trace w)
  ∧ read_calls (trace (scrape_extensions_index env fuel w).2) = read_calls (trace w)
  ∧ (∀ extensions, (scrape_extensions_index env fuel w).1 = Return (Some extensions) →
       StronglySorted (λ a b, raw_pk a ≤ raw_pk b) extensions)
  ∧ (scrape_extensions_index env fuel w).1 ≠ Raise (HTTPError 404)
  ∧ (scrape_extensions_index env fuel w).1 ≠ Raise (RuntimeError "generator didn't yield").
Proof.
  destruct (scrape_extensions_index_outcome env fuel w) as [Hstate Hr].
  unfold processing_state in Hstate. injection Hstate as Hreg Hprefetch Hread.
  split_and!; [done..| | |].
  - intros extensions Hrun. by rewrite Hrun in Hr.
  - intros Hrun. rewrite Hrun in Hr. by destruct Hr as (code & [= <-] & Hcode).
  - intros Hrun. rewrite Hrun in Hr. by destruct Hr as (code & Hcode & _).
Qed.

(** *** The processing makes no request to the index *)

Lemma register_pname_keeps_urlopen pname uuid shell_version :
  keeps (λ w, urlopen_calls (trace w)) (register_pname pname uuid shell_version).
Proof.
  intros w. rewrite register_pname_run.
  destruct (_ !! shell_version) as [names|]; [|done]. simpl. by destruct (names !! pname).
Qed.

Lemma prefetch_loop_keeps_urlopen env iterations url process :
  keeps (λ w, urlopen_calls (trace w)) (prefetch_loop env iterations url process).
Proof.
  revert process. induction iterations as [|i iterations IH]; intros process; simpl;
    keeps_with ltac:(first [by intros ?|apply IH]).
Qed.

Lemma open_read_keeps_urlopen env path :
  keeps (λ w, urlopen_calls (trace w)) (open_read env path).
Proof. intros w. rewrite open_read_run. by destruct (read_text _ _ _). Qed.

Lemma process_extension_keeps_urlopen env extension :
  keeps (λ w, urlopen_calls (trace w)) (process_extension env extension).
Proof.
  unfold process_extension, generate_extension_versions, fetch_extension_data, pname_from_url.
  keeps_with ltac:(first [apply prefetch_loop_keeps_urlopen
                         |apply open_read_keeps_urlopen
                         |apply encode_ascii_keeps
                         |apply register_pname_keeps_urlopen]).
Qed.

Lemma process_all_keeps_urlopen env raw_extensions :
  keeps (λ w, urlopen_calls (trace w)) (process_all env raw_extensions).
Proof.
  unfold process_all. keeps_with ltac:(apply process_extension_keeps_urlopen).
Qed.

(** *** The failures of the processing *)

Lemma registry_grows_ready registry registry' :
  registry_grows registry registry' → registry_ready registry → registry_ready registry'.
Proof.
  intros [Hdom _] Hready shell_version Hin.
  apply elem_of_dom. rewrite Hdom. apply elem_of_dom. by apply Hready.
Qed.

Lemma process_all_loop_Raise env (total : nat) (items : list (nat * RawExtension))
    (acc : list ProcessedExtension) w e w' :
  registry_ready (package_name_registry w) →
  for_each items acc
    (λ processed_extensions item,
       processed_extension <- process_extension env item.2;;
       match processed_extension with
       | Some e =>
           logging DEBUG ("Processed " +:+ Py.str_of_int (Z.of_nat item.1 + 1) +:+ " / "
                          +:+ Py.str_of_int (Z.of_nat total));;
           ret (processed_extensions ++ [e])%list
       | None => ret processed_extensions
       end) w = (Raise e, w') →
  record_failure e.
Proof.
  revert acc w. induction items as [|item items IH]; intros acc w Hready; simpl; [done|].
  unfold bind at 1, bind at 1.
  pose proof (process_extension_grows env item.2 w) as Hgrows.
  destruct (process_extension env item.2 w) as [[o|e'] w1] eqn:Hrun.
  - apply registry_grows_ready in Hgrows; [|done]. simpl in Hgrows.
    destruct o as [pe|].
    + unfold bind at 1; cbn [logging emit ret]. apply IH. exact Hgrows.
    + cbn [ret]. by apply IH.
  - intros [= <- <-]. by eapply process_extension_Raise.
Qed.

Lemma process_all_Raise env raw_extensions w e w' :
  registry_ready (package_name_registry w) →
  process_all env raw_extensions w = (Raise e, w') →
  record_failure e.
Proof. unfold process_all. apply process_all_loop_Raise. Qed.

(** X11: when the script completes, the scrape has ended with a list of
    records, and no request to the index was made after it; the text of
    extensions.json is the serialization of the output records of the
    records with a selection of versions, of which there is at least one,
    and it is valid JSON; the collision report is made from the registry
    at the end, which has grown from the registry at the start by
    appending. *)
Theorem main_output env fuel w extensions_json report w' :
  main env fuel w = (Return (Some (extensions_json, report)), w') →
  ∃ raw_extensions processed_extensions w1,
    scrape_extensions_index env fuel w = (Return (Some raw_extensions), w1)
    ∧ urlopen_calls (trace w') = urlopen_calls (trace w1)
    ∧ Forall2 made_from processed_extensions
        (filter (λ extension, is_kept extension) raw_extensions)
    ∧ processed_extensions ≠ []
    ∧ extensions_json = write_extensions_json processed_extensions
    ∧ loads extensions_json ≠ None
    ∧ report = collisions (package_name_registry w')
    ∧ registry_grows (package_name_registry w) (package_name_registry w').
Proof.
  unfold main.
  intros (raw & w1 & Hscrape & Hrest)%bind_Return_inv.
  destruct raw as [raw_extensions|]; [|done].
  apply bind_Return_inv in Hrest as (u1 & w2 & Hlog1 & Hrest).
  apply bind_Return_inv in Hrest as (processed & w3 & Hprocess & Hrest).
  apply bind_Return_inv in Hrest as (u2 & w4 & Hlog2 & Hrest).
  destruct (loads _) eqn:Hloads; [|done].
  apply bind_Return_inv in Hrest as (registry & w5 & Hget & Hrest).
  injection Hget as <- <-.
  apply bind_Return_inv in Hrest as (u3 & w6 & Hlog3 & Hret).
  injection Hret as <- <- <-.
  injection Hlog1 as Hw2. injection Hlog2 as Hw4. injection Hlog3 as Hw6.
  subst w6 w4.
  exists raw_extensions, processed, w1. split_and!; try done.
  - pose proof (keeps_eq _ _ _ _ _ (process_all_keeps_urlopen env raw_extensions) Hprocess)
      as Hcalls.
    transitivity (urlopen_calls (trace w3)); [reflexivity|].
    rewrite Hcalls. by subst w2.
  - by eapply process_all_Return.
  - intros ->. by vm_compute in Hloads.
  - by rewrite Hloads.
  - cbn [package_name_registry].
    pose proof (process_all_grows env raw_extensions w2) as Hgrows.
    rewrite Hprocess in Hgrows. unfold world_grows in Hgrows. simpl in Hgrows.
    destruct (scrape_extensions_index_outcome env fuel w) as [Hstate _].
    rewrite Hscrape in Hstate. injection Hstate as Hreg _ _.
    subst w2. simpl in Hgrows. by rewrite <- Hreg.
Qed.

Lemma main_output_witness :
  ∃ extensions_json report processed_extensions,
    (main small_shop 1 initial_world).1 = Return (Some (extensions_json, report))
    ∧ Forall2 made_from processed_extensions
        (filter (λ extension, is_kept extension)
           (Py.sorted_by raw_pk [battery_time; sample_extension 1]))
    ∧ extensions_json = write_extensions_json processed_extensions.
Proof.
  assert (Hrun : ∃ extensions_json report w',
             main small_shop 1 initial_world
             = (Return (Some (extensions_json, report)), w')) by (vm_compute; eauto).
  destruct Hrun as (extensions_json & report & w' & Hrun).
  destruct (main_output small_shop 1 initial_world extensions_json report w' Hrun)
    as (raw_extensions & processed & w1 & Hscrape & _ & Hmade & _ & Hjson & _).
  exists extensions_json, report, processed. rewrite Hrun. split; [done|].
  split; [|exact Hjson].
  assert (Hraw : (scrape_extensions_index small_shop 1 initial_world).1
                 = Return (Some (Py.sorted_by raw_pk [battery_time; sample_extension 1])))
    by (by vm_compute).
  rewrite Hscrape in Hraw. simpl in Hraw. injection Hraw as <-. exact Hmade.
Defined.

Lemma main_Raise env fuel w e w' :
  registry_ready (package_name_registry w) →
  main env fuel w = (Raise e, w') →
  scrape_failure e ∨ record_failure e ∨ e = JSONDecodeError.
Proof.
  intros Hready. unfold main. unfold bind at 1.
  destruct (scrape_extensions_index_outcome env fuel w) as [Hstate Hr].
  destruct (scrape_extensions_index env fuel w) as [[[raw_extensions|]|e'] w1];
    simpl in Hstate, Hr; [|done|by intros [= <- <-]; left].
  injection Hstate as Hreg _ _.
  unfold bind at 1; cbn [logging emit]. unfold bind at 1.
  match goal with |- context [process_all env raw_extensions ?w2] =>
    pose proof (process_all_Raise env raw_extensions w2) as Hfail;
    destruct (process_all env raw_extensions w2) as [[processed|e'] w3] end.
  - unfold bind at 1; cbn [logging emit].
    destruct (loads _); [|intros [= <- <-]; by right; right].
    unfold bind; cbn [get_registry logging emit ret]. done.
  - intros [= <- <-]. right; left. eapply Hfail; [|done]. simpl. by rewrite Hreg.
Qed.

(** X12: started with a dictionary in the registry for every supported
    version, the script does not end in a failure of its own
    bookkeeping: not in a 404 of the index, not in the [RuntimeError] of
    a request that has not yielded, not in the [UnboundLocalError] of a
    download loop that has not run, and not in a [KeyError] for a
    supported shell version or for a version number, as the registry
    keeps a dictionary for every supported version from one record to
    the next. *)
Theorem main_failure env fuel w e w' :
  registry_ready (package_name_registry w) →
  main env fuel w = (Raise e, w') →
  e ≠ HTTPError 404
  ∧ e ≠ RuntimeError "generator didn't yield"
  ∧ ¬ lookup_failure e.
Proof.
  intros Hready Hrun.
  destruct (main_Raise env fuel w e w' Hready Hrun) as [(code & -> & Hcode)|[Hrecord| ->]].
  - split_and!; [by intros [= ?]|done|]. by intros [?|(key & ? & _)].
  - split_and!; [| |by apply record_failure_no_lookup].
    + intros ->. unfold record_failure, retried_10_times in Hrecord. naive_solver.
    + intros ->. unfold record_failure, retried_10_times in Hrecord. naive_solver.
  - split_and!; [done..|]. by intros [?|(key & ? & _)].
Qed.

Lemma main_failure_witness :
  HTTPError 503 ≠ HTTPError 404
  ∧ HTTPError 503 ≠ RuntimeError "generator didn't yield"
  ∧ ¬ lookup_failure (HTTPError 503).
Proof.
  assert (Hrun : ∃ w', main overloaded_server 1 initial_world = (Raise (HTTPError 503), w'))
    by (vm_compute; eauto).
  destruct Hrun as [w' Hrun].
  apply (main_failure overloaded_server 1 initial_world (HTTPError 503) w'
           initial_registry_ready Hrun).
Defined.

(** ** The collisions of a run *)

Lemma initial_registry_no_names shell_version pname u :
  ¬ listed initial_registry shell_version pname u.
Proof.
  assert (Hempty : ∀ keys (registry : gmap ShellVersion (gmap PackageName (list Uuid))),
             (∀ g names, registry !! g = Some names → names = ∅) →
             ∀ g names, foldl (λ reg k, <[k := ∅]> reg) registry keys !! g
                        = Some names → names = ∅).
  { induction keys as [|k keys IH]; intros registry Hreg g names; simpl; [apply Hreg|].
    apply IH. intros g' names'. destruct (decide (g' = k)) as [->|Hne].
    - rewrite lookup_insert_eq. by intros [= <-].
    - rewrite lookup_insert_ne by done. apply Hreg. }
  intros (names & uuids & Hnames & Huuids & _).
  apply Hempty in Hnames as ->; [by rewrite lookup_empty in Huuids|].
  intros g names'. by rewrite lookup_empty.
Qed.

(** What a record that is turned into an output record adds to the
    registry. *)
Lemma process_extension_listed env extension w e w' shell_version pname' u :
  process_extension env extension w = (Return (Some e), w') →
  listed (package_name_registry w') shell_version pname' u
  ↔ listed (package_name_registry w) shell_version pname' u
    ∨ (shell_version ∈ Py.dict_keys (shell_version_map e)
       ∧ pname e = pname' ∧ uuid e = u).
Proof.
  intros (w1 & w2 & names & Hgen & Hreg1 & _ & Hloop & He)%process_extension_Some.
  assert (Hreg2 : package_name_registry w2 = package_name_registry w).
  { rewrite <- Hreg1.
    eapply keeps_eq; [apply generate_extension_versions_keeps_registry|exact Hgen]. }
  assert (Hnd : NoDup (Py.dict_keys (shell_version_map e))).
  { rewrite (generate_extension_versions_keys _ _ _ _ _ _ Hgen).
    apply select_versions_NoDup. }
  destruct (register_loop _ _ _ _ _ Hnd Hloop shell_version) as [Hin Hout].
  rewrite Hreg2 in Hin, Hout.
  assert (Hpname : pname e = names.1) by (by rewrite He).
  assert (Huuid : uuid e = raw_uuid extension) by (by rewrite He).
  rewrite Hpname, Huuid. clear He Hpname Huuid Hloop Hgen.
  destruct (decide (shell_version ∈ Py.dict_keys (shell_version_map e))) as [Hkey|Hkey].
  - destruct (Hin Hkey) as (names0 & Hnames0 & Hnames'). unfold listed.
    rewrite Hnames', Hnames0. split.
    + intros (names1 & uuids & [= <-] & Huuids & Hu).
      destruct (decide (pname' = names.1)) as [->|Hne].
      * rewrite lookup_insert_eq in Huuids. injection Huuids as <-.
        apply elem_of_app in Hu as [Hu|Hu%list_elem_of_singleton]; [|by right].
        left. destruct (names0 !! names.1) as [uuids0|] eqn:Huuids0; simpl in Hu.
        -- by exists names0, uuids0.
        -- by apply elem_of_nil in Hu.
      * rewrite lookup_insert_ne in Huuids by done. left. by exists names0, uuids.
    + intros [(names1 & uuids & [= <-] & Huuids & Hu)|(_ & <- & <-)].
      * destruct (decide (pname' = names.1)) as [->|Hne].
        -- eexists _, _. split; [done|]. rewrite lookup_insert_eq. split; [done|].
           rewrite Huuids. simpl. apply elem_of_app. by left.
        -- eexists _, uuids. split; [done|]. by rewrite lookup_insert_ne.
      * eexists _, _. split; [done|]. rewrite lookup_insert_eq. split; [done|].
        apply elem_of_app. right. by apply list_elem_of_singleton.
  - unfold listed. rewrite (Hout Hkey). split; [by left|]. by intros [?|[? _]].
Qed.

Lemma process_extension_None_registry env extension w w' :
  process_extension env extension w = (Return None, w') →
  package_name_registry w' = package_name_registry w.
Proof.
  unfold process_extension. destruct (decide _); [by intros [= <-]|].
  intros (u & w1 & Hlog & Hrun)%bind_Return_inv. injection Hlog as Hw1.
  apply bind_Return_inv in Hrun as (svm & w2 & Hgen & Hrest).
  apply (keeps_eq package_name_registry) in Hgen;
    [|apply generate_extension_versions_keeps_registry].
  subst w1. simpl in Hgen. destruct svm as [|entry svm].
  - injection Hrest as <-. exact Hgen.
  - apply bind_Return_inv in Hrest as (names & w3 & _ & Hrest).
    apply bind_Return_inv in Hrest as (u' & w4 & _ & Hrest). discriminate.
Qed.

Lemma process_all_loop_listed env (total : nat) (items : list (nat * RawExtension))
    (acc out : list ProcessedExtension) w w' :
  for_each items acc
    (λ processed_extensions item,
       processed_extension <- process_extension env item.2;;
       match processed_extension with
       | Some e =>
           logging DEBUG ("Processed " +:+ Py.str_of_int (Z.of_nat item.1 + 1) +:+ " / "
                          +:+ Py.str_of_int (Z.of_nat total));;
           ret (processed_extensions ++ [e])%list
       | None => ret processed_extensions
       end) w = (Return out, w') →
  ∃ new, out = acc ++ new
    ∧ ∀ shell_version pname' u,
        listed (package_name_registry w') shell_version pname' u
        ↔ listed (package_name_registry w) shell_version pname' u
          ∨ ∃ e, e ∈ new ∧ shell_version ∈ Py.dict_keys (shell_version_map e)
                 ∧ pname e = pname' ∧ uuid e = u.
Proof.
  revert acc w. induction items as [|item items IH]; intros acc w; simpl.
  { intros [= <- <-]. exists []. split; [by rewrite app_nil_r|].
    intros g p u. split; [by left|]. intros [?|(e & []%elem_of_nil & _)]. done. }
  intros (acc1 & w1 & Hbody & Hrest)%bind_Return_inv.
  apply IH in Hrest as (new & -> & Hnew).
  apply bind_Return_inv in Hbody as (o & w2 & Hrun & Hbody).
  destruct o as [e|].
  - apply bind_Return_inv in Hbody as (u0 & w3 & Hlog & Hret).
    injection Hret as <- Hw1. injection Hlog as Hw3. subst w1 w3.
    cbn [package_name_registry] in Hnew.
    exists (e :: new). split; [by rewrite <- app_assoc|].
    intros g p u. rewrite Hnew.
    rewrite (process_extension_listed _ _ _ _ _ g p u Hrun).
    setoid_rewrite elem_of_cons. naive_solver.
  - injection Hbody as <- <-. exists new. split; [done|].
    intros g p u. rewrite Hnew.
    by rewrite (process_extension_None_registry _ _ _ _ Hrun).
Qed.

Lemma process_all_registered env raw_extensions w processed_extensions w' pname' u :
  (∀ shell_version p u', ¬ listed (package_name_registry w) shell_version p u') →
  process_all env raw_extensions w = (Return processed_extensions, w') →
  registered (package_name_registry w') pname' u
  ↔ ∃ e, e ∈ processed_extensions ∧ recent e ∧ pname e = pname' ∧ uuid e = u.
Proof.
  intros Hfresh Hrun. unfold process_all in Hrun.
  apply (process_all_loop_listed env (length raw_extensions)) in Hrun as (new & -> & Hnew).
  rewrite app_nil_l. unfold registered, recent. split.
  - intros (g & names & uuids & Hg & Hnames & Huuids & Hu).
    assert (Hl : listed (package_name_registry w') g pname' u) by (by exists names, uuids).
    apply Hnew in Hl as [Hl|(e & He & Hkey & Hp & Hid)]; [by apply Hfresh in Hl|].
    exists e. split_and!; [done| |done..]. by exists g.
  - intros (e & He & (g & Hkey & Hg) & Hp & Hid).
    assert (Hl : listed (package_name_registry w') g pname' u).
    { apply Hnew. right. by exists e. }
    destruct Hl as (names & uuids & Hnames & Huuids & Hu). by exists g, names, uuids.
Qed.

(** X13: let the processing start with no name in the registry, as the
    script does, and complete.  Then the collision report made from the
    registry has an entry for a package name exactly when two output
    records with different identifiers have this name and each has one
    of the last three versions among its shell versions; and the entry
    lists, each once, the identifiers of all output records with this
    name and one of the last three versions. *)
Theorem process_all_collisions env raw_extensions w processed_extensions w' pname' :
  (∀ shell_version p u, ¬ listed (package_name_registry w) shell_version p u) →
  process_all env raw_extensions w = (Return processed_extensions, w') →
  (is_Some (collisions (package_name_registry w') !! pname')
   ↔ ∃ e1 e2, e1 ∈ processed_extensions ∧ e2 ∈ processed_extensions
       ∧ recent e1 ∧ recent e2 ∧ pname e1 = pname' ∧ pname e2 = pname'
       ∧ uuid e1 ≠ uuid e2)
  ∧ ∀ uuids, collisions (package_name_registry w') !! pname' = Some uuids →
      NoDup uuids
      ∧ ∀ u, u ∈ uuids
             ↔ ∃ e, e ∈ processed_extensions ∧ recent e ∧ pname e = pname' ∧ uuid e = u.
Proof.
  intros Hfresh Hrun.
  pose proof (λ u, process_all_registered env raw_extensions w processed_extensions w'
                     pname' u Hfresh Hrun) as Hreg.
  split.
  - split.
    + intros [uuids (s & _ & (u1 & u2 & Hne & Hu1 & Hu2)%size_gt_1 & Hs)%collisions_lookup].
      apply Hs, Hreg in Hu1 as (e1 & He1 & Hr1 & Hp1 & Hid1).
      apply Hs, Hreg in Hu2 as (e2 & He2 & Hr2 & Hp2 & Hid2).
      exists e1, e2. split_and!; try done. congruence.
    + intros (e1 & e2 & He1 & He2 & Hr1 & Hr2 & Hp1 & Hp2 & Hne).
      assert (H1 : registered (package_name_registry w') pname' (uuid e1))
        by (apply Hreg; by exists e1).
      assert (H2 : registered (package_name_registry w') pname' (uuid e2))
        by (apply Hreg; by exists e2).
      destruct (collisions (package_name_registry w') !! pname') as [uuids|] eqn:Hc; [done|].
      exfalso. unfold collisions, package_name_registry_filtered in Hc.
      rewrite lookup_fmap, fmap_None, map_lookup_filter_None in Hc.
      apply merged_registered in H1 as (s1 & Hs1 & Hin1).
      apply merged_registered in H2 as (s2 & Hs2 & Hin2).
      rewrite Hs1 in Hs2. injection Hs2 as <-.
      destruct Hc as [Hc|Hc]; [by rewrite Hs1 in Hc|].
      apply (Hc s1 Hs1). simpl. apply size_gt_1. by exists (uuid e1), (uuid e2).
  - intros uuids (s & -> & _ & Hs)%collisions_lookup. split; [apply NoDup_elements|].
    intros u. by rewrite elem_of_elements, Hs, Hreg.
Qed.

Lemma process_all_collisions_witness :
  ∃ uuids,
    collisions (package_name_registry
                  (process_all ready_store
                     [foo_extension 1 "a@example.org" "47"; foo_extension 2 "b@example.org" "46"]
                     initial_world).2) !! "foo" = Some uuids
    ∧ NoDup uuids.
Proof.
  assert (Hrun : ∃ out w',
             process_all ready_store
               [foo_extension 1 "a@example.org" "47"; foo_extension 2 "b@example.org" "46"]
               initial_world = (Return out, w')) by (vm_compute; eauto).
  destruct Hrun as (out & w' & Hrun).
  destruct (process_all_collisions ready_store
              [foo_extension 1 "a@example.org" "47"; foo_extension 2 "b@example.org" "46"]
              initial_world out w' "foo"
              (λ shell_version p u, initial_registry_no_names shell_version p u) Hrun)
    as [_ Hlist].
  rewrite Hrun. cbn [snd].
  assert (Hentry : ∃ uuids, collisions (package_name_registry w') !! "foo" = Some uuids).
  { assert (Hw : w' = (process_all ready_store
               [foo_extension 1 "a@example.org" "47"; foo_extension 2 "b@example.org" "46"]
               initial_world).2) by (by rewrite Hrun).
    rewrite Hw. vm_compute. eauto. }
  destruct Hentry as [uuids Hentry]. exists uuids. split; [exact Hentry|].
  apply (Hlist uuids Hentry).
Defined.
